(** * Portfolio & CMS backend (server.js): a shallow embedding

    The Express application of [server.js] is embedded as pure functions:
    a request handler is a function from the per-request environment (clock,
    generated identifier, salt, process environment), the request and the
    persistent store to a new store and a response.  The queries of the
    object-document mapper are written out over lists of documents; what the
    mapper and the cryptographic libraries decide on their own (casting of
    values, token signing, password hashing) is taken as an interface. *)

From stdpp Require Import gmap strings list sorting pretty.
From Stdlib Require Import Ascii.

Set Warnings "-register-all,-clear-no-such-hyp".
Open Scope string_scope.
Open Scope Z_scope.
Open Scope list_scope.

(** ** JavaScript values *)

Module Js.

(** The values a JSON request body or a token payload can hold, and
    [undefined] for an absent property. *)
Inductive JValue :=
| JUndefined
| JNull
| JBool (b : bool)
| JNum (n : Z)
| JStr (s : string)
| JArr (l : list JValue)
| JObj (o : gmap string JValue).

(** [o.k] on an object: an absent key reads as [undefined]. *)
Definition prop (o : gmap string JValue) (k : string) : JValue :=
  default JUndefined (o !! k).

(** ToBoolean, as used by [if (x)], [!x], [x && y] and [x || y]. *)
Definition truthy (v : JValue) : bool :=
  match v with
  | JUndefined | JNull => false
  | JBool b => b
  | JNum n => negb (n =? 0)
  | JStr s => negb (String.eqb s "")
  | JArr _ | JObj _ => true
  end.

(** [v === 'lit'] against a string literal. *)
Definition is_str (v : JValue) (lit : string) : bool :=
  match v with
  | JStr s => String.eqb s lit
  | _ => false
  end.

(** [s.split(c)] for a one-character separator: never the empty list. *)
Fixpoint split (sep : Ascii.ascii) (s : string) : list string :=
  match s with
  | EmptyString => [EmptyString]
  | String c s' =>
      if Ascii.eqb c sep then EmptyString :: split sep s'
      else match split sep s' with
           | [] => [String c EmptyString]
           | w :: ws => String c w :: ws
           end
  end.

(** An ASCII letter in lower case; every other character is itself. *)
Definition lower (c : Ascii.ascii) : Ascii.ascii :=
  let n := Ascii.nat_of_ascii c in
  if ((65 <=? n) && (n <=? 90))%nat then Ascii.ascii_of_nat (n + 32) else c.

Fixpoint lower_string (s : string) : string :=
  match s with
  | EmptyString => EmptyString
  | String c r => String (lower c) (lower_string r)
  end.

(** Equality of two path segments as a regular expression with the [i]
    flag decides it: the case of ASCII letters is not looked at. *)
Definition same_segment (a b : string) : bool :=
  String.eqb (lower_string a) (lower_string b).

(** [k.includes('.')] *)
Fixpoint dotted (k : string) : bool :=
  match k with
  | EmptyString => false
  | String c r => Ascii.eqb c "."%char || dotted r
  end.

End Js.
Export Js.

(** ** Requests, responses and the per-request environment *)

(** What a handler reads besides the request and the store. *)
Record Env := {
  now : Z;                        (* the clock, in seconds *)
  oid : string;                   (* the identifier generated for a new document *)
  salt : string;                  (* the salt drawn by [bcrypt.genSalt(10)] *)
  JWT_SECRET : option string      (* [process.env.JWT_SECRET] *)
}.

(** [process.env.JWT_SECRET || 'a_very_secure_default_secret'] *)
Definition secret (env : Env) : string :=
  match JWT_SECRET env with
  | Some s => if String.eqb s "" then "a_very_secure_default_secret" else s
  | None => "a_very_secure_default_secret"
  end.

Record Request := {
  authorization : option string;       (* [req.headers['authorization']] *)
  params : gmap string string;         (* [req.params] *)
  body : gmap string JValue;           (* [req.body], parsed JSON *)
  user : option (gmap string JValue)   (* [req.user], set by the gate *)
}.

Definition set_user (req : Request) (u : gmap string JValue) : Request :=
  {| authorization := authorization req; params := params req;
     body := body req; user := Some u |}.

(** [req.params.k].  The router binds every parameter of the pattern it
    matched before the handler runs (see [match_pattern]); the empty string
    stands for a parameter that was never bound. *)
Definition param (req : Request) (k : string) : string :=
  default "" (params req !! k).

(** ** Credential service: the libraries' interface *)

Inductive JwtError := InvalidSignature | Malformed | Expired.

(** [jsonwebtoken] and [bcryptjs].  [jwt_sign payload key expiresIn clock]
    and [jwt_verify token key clock]; [bcrypt_hash] and [bcrypt_compare]
    answer [None] where the library throws (an argument that is no string). *)
Class Crypto := {
  jwt_sign : gmap string JValue → string → Z → Z → string;
  jwt_verify : string → string → Z → JwtError + gmap string JValue;
  bcrypt_hash : JValue → string → option string;
  bcrypt_compare : JValue → JValue → option bool
}.

(** The contract of [sign] and [verify] on payloads of three strings: until
    it expires, a token verifies under the key it was signed with and decodes
    to its payload together with the issue and expiry times. *)
Definition jwt_contract `{Crypto} : Prop :=
  ∀ (id name role key : string) (ttl t t' : Z),
    t ≤ t' < t + ttl →
    jwt_verify
      (jwt_sign {[ "id" := JStr id; "name" := JStr name; "role" := JStr role ]}
                key ttl t) key t'
    = inr (<[ "iat" := JNum t ]> (<[ "exp" := JNum (t + ttl) ]>
            {[ "id" := JStr id; "name" := JStr name; "role" := JStr role ]})).

(** ** Record store: documents, schemas and the mapper's interface *)

(** A stored field value, after casting to its schema type. *)
Inductive Value :=
| VNull
| VBool (b : bool)
| VStr (s : string)
| VStrs (l : list (option string)).

#[global] Instance Value_eq_dec : EqDecision Value.
Proof. solve_decision. Defined.

(** A persisted document: its identifier, the fields of its schema's paths
    (and whatever else a collection may hold), and the timestamps, present
    for the schemas declared with [{ timestamps: true }].  The version key
    the mapper maintains is not represented. *)
Record Doc := {
  _id : string;
  fields : gmap string Value;
  createdAt : option Z;
  updatedAt : option Z
}.

Inductive SchemaType := TString | TBoolean | TStringArray.

(** One schema path with the options [server.js] uses. *)
Record Path := {
  p_name : string;
  p_type : SchemaType;
  p_required : bool;
  p_unique : bool;
  p_trim : bool;
  p_lowercase : bool;
  p_enum : option (list string);
  p_default : option Value
}.

Record Schema := {
  s_paths : list Path;
  s_timestamps : bool
}.

(** What a library call throws: the mapper's cast, validation and operator
    errors, the store's duplicate-key error and its refusal to change an
    identifier, and the hashing library's complaint about an
    argument that is no string. *)
Inductive StoreError :=
| CastError (path : string)
| ValidatorError (path : string)
| DuplicateKey (path : string)
| ImmutableField (path : string)
| OperatorError
| IllegalArguments.

(** What the mapper decides on its own: which strings are identifiers, which
    identifier (in the store's rendering) a raw value that is no string
    stands for, how a raw value is cast to a path's type (with the path's
    setters), how a raw query value selects stored values, what the keys of
    an update object that are no field names (update operators, dotted
    paths) do, whether an [undefined] in an update is dropped or stored as
    null, whether defaults are set on an upsert that names no such option,
    and how an error reads.  [None] is a thrown cast error. *)
Class Mongoose := {
  castObjectId : string → option string;
  castId : JValue → option string;
  castPath : Path → JValue → option Value;
  castQuery : Path → JValue → option (option Value → bool);
  castOperators : Schema → gmap string JValue →
                  option (gmap string Value → gmap string Value);
  omitUndefined : bool;
  setDefaultsOnInsert_default : bool;
  message : StoreError → string
}.

(** *** The schemas of section 3 of [server.js] *)

Definition path (name : string) (ty : SchemaType) : Path :=
  {| p_name := name; p_type := ty; p_required := false; p_unique := false;
     p_trim := false; p_lowercase := false; p_enum := None; p_default := None |}.

Definition required (p : Path) : Path :=
  {| p_name := p_name p; p_type := p_type p; p_required := true;
     p_unique := p_unique p; p_trim := p_trim p; p_lowercase := p_lowercase p;
     p_enum := p_enum p; p_default := p_default p |}.

Definition unique (p : Path) : Path :=
  {| p_name := p_name p; p_type := p_type p; p_required := p_required p;
     p_unique := true; p_trim := p_trim p; p_lowercase := p_lowercase p;
     p_enum := p_enum p; p_default := p_default p |}.

Definition trim (p : Path) : Path :=
  {| p_name := p_name p; p_type := p_type p; p_required := p_required p;
     p_unique := p_unique p; p_trim := true; p_lowercase := p_lowercase p;
     p_enum := p_enum p; p_default := p_default p |}.

Definition lowercase (p : Path) : Path :=
  {| p_name := p_name p; p_type := p_type p; p_required := p_required p;
     p_unique := p_unique p; p_trim := p_trim p; p_lowercase := true;
     p_enum := p_enum p; p_default := p_default p |}.

Definition enum (vals : list string) (p : Path) : Path :=
  {| p_name := p_name p; p_type := p_type p; p_required := p_required p;
     p_unique := p_unique p; p_trim := p_trim p; p_lowercase := p_lowercase p;
     p_enum := Some vals; p_default := p_default p |}.

Definition default_ (v : Value) (p : Path) : Path :=
  {| p_name := p_name p; p_type := p_type p; p_required := p_required p;
     p_unique := p_unique p; p_trim := p_trim p; p_lowercase := p_lowercase p;
     p_enum := p_enum p; p_default := Some v |}.

(** [k: [String]]: an array path has the implicit default [[]]. *)
Definition array (name : string) : Path :=
  default_ (VStrs []) (path name TStringArray).

Definition emailPath : Path :=
  lowercase (trim (unique (required (path "email" TString)))).

Definition userSchema : Schema :=
  {| s_paths :=
       [ trim (required (path "name" TString));
         emailPath;
         required (path "passwordHash" TString);
         required (default_ (VStr "Editor")
           (enum ["Administrator"; "Editor"] (path "role" TString)));
         required (default_ (VStr "Active")
           (enum ["Active"; "Inactive"] (path "status" TString))) ];
     s_timestamps := false |}.

Definition projectSchema : Schema :=
  {| s_paths :=
       [ trim (required (path "title" TString));
         required (path "description" TString);
         path "image" TString;
         array "tech";
         default_ (VBool false) (path "published" TBoolean);
         path "problem" TString;
         path "process" TString;
         path "outcome" TString;
         path "architectureDiagram" TString ];
     s_timestamps := true |}.

Definition experienceSchema : Schema :=
  {| s_paths :=
       [ required (path "role" TString);
         required (path "company" TString);
         required (path "duration" TString);
         required (path "description" TString);
         default_ (VBool false) (path "published" TBoolean) ];
     s_timestamps := true |}.

Definition expertiseSchema : Schema :=
  {| s_paths :=
       [ required (path "title" TString);
         required (path "description" TString);
         path "icon" TString;
         default_ (VBool false) (path "published" TBoolean) ];
     s_timestamps := true |}.

Definition engineeringLogSchema : Schema :=
  {| s_paths :=
       [ required (path "title" TString);
         required (path "excerpt" TString);
         default_ (VStr "") (path "content" TString);
         default_ (VBool false) (path "published" TBoolean) ];
     s_timestamps := true |}.

Definition personalInfoSchema : Schema :=
  {| s_paths :=
       [ unique (default_ (VStr "main") (path "singleton" TString));
         path "name" TString; path "title" TString; path "subtitle" TString;
         path "summary" TString; path "linkedin" TString;
         path "github" TString; path "email" TString; path "cvPath" TString ];
     s_timestamps := false |}.

Definition skillsSchema : Schema :=
  {| s_paths :=
       [ unique (default_ (VStr "main") (path "singleton" TString));
         array "skills" ];
     s_timestamps := false |}.

Definition singleSectionSchema : Schema :=
  {| s_paths :=
       [ unique (required (path "sectionId" TString));
         path "title" TString;
         path "description" TString ];
     s_timestamps := false |}.

(** The eight models ([mongoose.model]) and their collections. *)
Inductive Model :=
| User | Project | Experience | Expertise | EngineeringLog
| PersonalInfo | Skills | SingleSection.

#[global] Instance Model_eq_dec : EqDecision Model.
Proof. solve_decision. Defined.

Definition schema (m : Model) : Schema :=
  match m with
  | User => userSchema
  | Project => projectSchema
  | Experience => experienceSchema
  | Expertise => expertiseSchema
  | EngineeringLog => engineeringLogSchema
  | PersonalInfo => personalInfoSchema
  | Skills => skillsSchema
  | SingleSection => singleSectionSchema
  end.

(** The store: every collection in insertion order. *)
Definition Store := Model → list Doc.

Definition set_collection (m : Model) (l : list Doc) (st : Store) : Store :=
  λ m', if decide (m' = m) then l else st m'.

(** *** Queries of the mapper, over lists of documents *)

Definition bind_err {E A B : Type} (x : E + A) (k : A → E + B) : E + B :=
  match x with
  | inl e => inl e
  | inr a => k a
  end.

Notation "'await' x <- e ; k" := (bind_err e (λ x, k))
  (at level 10, x pattern, e at level 100, k at level 200, only parsing).

(** Sort keys: a document without the timestamp sorts below every date. *)
Definition key_le (x y : option Z) : Prop :=
  match x, y with
  | None, _ => True
  | Some _, None => False
  | Some a, Some b => a ≤ b
  end.

(** [a] may come before [b] under [.sort({ createdAt: -1 })]. *)
Definition created_desc (a b : Doc) : Prop :=
  key_le (createdAt b) (createdAt a).

#[global] Instance key_le_dec x y : Decision (key_le x y).
Proof. destruct x, y; simpl; apply _. Defined.

#[global] Instance created_desc_dec a b : Decision (created_desc a b).
Proof. unfold created_desc. apply _. Defined.

Definition sort_createdAt_desc (l : list Doc) : list Doc :=
  merge_sort created_desc l.

(** The value a unique index holds for a document: an absent field is
    indexed as null. *)
Definition index_key (d : Doc) (k : string) : Value :=
  default VNull (fields d !! k).

(** Does another document hold [d]'s value under the unique index on [k]? *)
Definition collides (others : list Doc) (d : Doc) (k : string) : bool :=
  existsb (λ d', bool_decide (index_key d' k = index_key d k)) others.

(** The unique index an insertion of [d] next to [others] violates: the
    identifier's first, then the schema's unique paths in order. *)
Definition duplicate_on_insert (sch : Schema) (others : list Doc) (d : Doc)
  : option StoreError :=
  if existsb (λ d', bool_decide (_id d' = _id d)) others
  then Some (DuplicateKey "_id")
  else match List.find (λ p, p_unique p && collides others d (p_name p))
                       (s_paths sch) with
       | Some p => Some (DuplicateKey (p_name p))
       | None => None
       end.

(** The unique index an update from [old] to [d] violates: only an index
    whose key changed is written. *)
Definition duplicate_on_update (sch : Schema) (others : list Doc) (old d : Doc)
  : option StoreError :=
  match List.find
          (λ p, p_unique p
                && negb (bool_decide (index_key d (p_name p) = index_key old (p_name p)))
                && collides others d (p_name p))
          (s_paths sch) with
  | Some p => Some (DuplicateKey (p_name p))
  | None => None
  end.

(** The first document that satisfies [P], with the documents before and
    after it. *)
Fixpoint split_first (P : Doc → bool) (l : list Doc)
  : option (list Doc * Doc * list Doc) :=
  match l with
  | [] => None
  | d :: l' =>
      if P d then Some ([], d, l')
      else match split_first P l' with
           | Some (before, hit, after) => Some (d :: before, hit, after)
           | None => None
           end
  end.

(** Query filters: [{}], [{ k: v }] for a value of the path's own type, and
    [{ k: raw }] for a raw request value, cast by the mapper. *)
Inductive Filter :=
| FAll
| FEq (k : string) (v : Value)
| FRaw (k : string) (sel : option Value → bool).

Definition matches (f : Filter) (d : Doc) : bool :=
  match f with
  | FAll => true
  | FEq k v => bool_decide (fields d !! k = Some v)
  | FRaw k sel => sel (fields d !! k)
  end.

(** Required-ness: null and absent fail, and so does the empty string. *)
Definition check_required (v : option Value) : bool :=
  match v with
  | None | Some VNull => false
  | Some (VStr s) => negb (String.eqb s "")
  | Some _ => true
  end.

Definition check_enum (allowed : option (list string)) (v : option Value) : bool :=
  match allowed, v with
  | None, _ => true
  | Some _, (None | Some VNull) => true
  | Some vals, Some (VStr s) => bool_decide (s ∈ vals)
  | Some _, Some _ => false
  end.

Definition validate_path (p : Path) (v : option Value) : option StoreError :=
  if p_required p && negb (check_required v) then Some (ValidatorError (p_name p))
  else if negb (check_enum (p_enum p) v) then Some (ValidatorError (p_name p))
  else None.

(** Keys of an update object that do not name a field: update operators
    ([$set], [$unset], ...) and dotted paths into a field ([tech.0]). *)
Definition is_operator (k : string) : bool := String.prefix "$" k || dotted k.

Section Queries.
Context `{Mongoose}.

(** Casting of a raw value to a path's type.  A string for a string path
    without setters and a boolean for a boolean path are stored as they are;
    every other case is the mapper's. *)
Definition cast (p : Path) (v : JValue) : option Value :=
  match p_type p, v with
  | TString, JStr s =>
      if p_trim p || p_lowercase p then castPath p v else Some (VStr s)
  | TBoolean, JBool b => Some (VBool b)
  | _, _ => castPath p v
  end.

(** [new Model(body)] for one path: the cast body value, or the default. *)
Definition construct_path (p : Path) (body : gmap string JValue)
  : StoreError + option Value :=
  match prop body (p_name p) with
  | JUndefined => inr (p_default p)
  | v => match cast p v with
         | Some v' => inr (Some v')
         | None => inl (CastError (p_name p))
         end
  end.

(** [new Model(body)] followed by the validation of [save()]: paths outside
    the schema are dropped (strict mode), the first failing path is
    reported. *)
Fixpoint construct (ps : list Path) (body : gmap string JValue)
  : StoreError + gmap string Value :=
  match ps with
  | [] => inr ∅
  | p :: ps' =>
      await v <- construct_path p body;
      match validate_path p v with
      | Some e => inl e
      | None =>
          await rest <- construct ps' body;
          inr (match v with
               | Some v' => <[p_name p := v']> rest
               | None => rest
               end)
      end
  end.

(** The identifier a raw [_id] is cast to: a string as the identifier of a
    query is, any other value as the mapper decides. *)
Definition cast_id (v : JValue) : option string :=
  match v with
  | JStr s => castObjectId s
  | _ => castId v
  end.

(** The identifier of [new Model(body)]: the body's [_id], cast, or else the
    generated one. *)
Definition construct_id (body : gmap string JValue) (env : Env)
  : StoreError + string :=
  match prop body "_id" with
  | JUndefined => inr (oid env)
  | v => match cast_id v with
         | Some i => inr i
         | None => inl (CastError "_id")
         end
  end.

(** [new Model(body).save()]: validate, stamp, insert. *)
Definition save (m : Model) (body : gmap string JValue) (env : Env) (st : Store)
  : StoreError + Store * Doc :=
  await fs <- construct (s_paths (schema m)) body;
  await i <- construct_id body env;
  let stamp := if s_timestamps (schema m) then Some (now env) else None in
  let d := {| _id := i; fields := fs;
              createdAt := stamp; updatedAt := stamp |} in
  match duplicate_on_insert (schema m) (st m) d with
  | Some e => inl e
  | None => inr (set_collection m (st m ++ [d]) st, d)
  end.

(** [Model.find(filter).sort({ createdAt: -1 })] *)
Definition find_sorted (m : Model) (f : Filter) (st : Store) : list Doc :=
  sort_createdAt_desc (List.filter (matches f) (st m)).

(** [Model.findOne(filter)] *)
Definition findOne (m : Model) (f : Filter) (st : Store) : option Doc :=
  head (List.filter (matches f) (st m)).

(** The [$set] one path receives from a plain update object. *)
Definition set_of_path (p : Path) (upd : gmap string JValue)
  : StoreError + option Value :=
  match upd !! p_name p with
  | None => inr None
  | Some JUndefined => inr (if omitUndefined then None else Some VNull)
  | Some v => match cast p v with
              | Some v' => inr (Some v')
              | None => inl (CastError (p_name p))
              end
  end.

Fixpoint cast_sets (ps : list Path) (upd : gmap string JValue)
  : StoreError + gmap string Value :=
  match ps with
  | [] => inr ∅
  | p :: ps' =>
      await v <- set_of_path p upd;
      await rest <- cast_sets ps' upd;
      inr (match v with
           | Some v' => <[p_name p := v']> rest
           | None => rest
           end)
  end.

(** The [_id] an update object sets, if it names one: the mapper keeps the
    key in the [$set]. *)
Definition set_of_id (upd : gmap string JValue) : StoreError + option string :=
  match upd !! "_id" with
  | None => inr None
  | Some v =>
      let cast_to (w : JValue) : StoreError + option string :=
        match cast_id w with
        | Some i => inr (Some i)
        | None => inl (CastError "_id")
        end in
      match v with
      | JUndefined => if omitUndefined then inr None else cast_to JNull
      | _ => cast_to v
      end
  end.

(** The store refuses an update that would change a document's identifier. *)
Definition check_id (newId : option string) (d : Doc) : option StoreError :=
  match newId with
  | Some i =>
      if bool_decide (i = _id d) then None else Some (ImmutableField "_id")
  | None => None
  end.

(** Casting of an update object to a transformation of a document's fields:
    field names of the schema become a [$set], field names outside it are
    dropped (strict mode), operator keys and dotted paths are left to the
    mapper. *)
Definition castUpdate (sch : Schema) (upd : gmap string JValue)
  : StoreError + (gmap string Value → gmap string Value) :=
  await sets <- cast_sets (s_paths sch) upd;
  let ops := filter (λ kv, is_operator kv.1 = true) upd in
  if decide (ops = ∅) then inr (λ fs, sets ∪ fs)
  else match castOperators sch ops with
       | Some g => inr (λ fs, g (sets ∪ fs))
       | None => inl OperatorError
       end.

(** The document [d] after an update: same identifier and creation time. *)
Definition updated (sch : Schema) (g : gmap string Value → gmap string Value)
    (env : Env) (d : Doc) : Doc :=
  {| _id := _id d; fields := g (fields d); createdAt := createdAt d;
     updatedAt := if s_timestamps sch then Some (now env) else updatedAt d |}.

(** [Model.findByIdAndUpdate(id, upd, { new: true })]: the updated document,
    or null when no document has the identifier. *)
Definition findByIdAndUpdate (m : Model) (id : string)
    (upd : gmap string JValue) (env : Env) (st : Store)
  : StoreError + Store * option Doc :=
  match castObjectId id with
  | None => inl (CastError "_id")
  | Some i =>
      await newId <- set_of_id upd;
      await g <- castUpdate (schema m) upd;
      match split_first (λ d, bool_decide (_id d = i)) (st m) with
      | None => inr (st, None)
      | Some (before, d, after) =>
          match check_id newId d with
          | Some e => inl e
          | None =>
              let d' := updated (schema m) g env d in
              match duplicate_on_update (schema m) (before ++ after) d d' with
              | Some e => inl e
              | None =>
                  inr (set_collection m (before ++ d' :: after) st, Some d')
              end
          end
      end
  end.

(** [Model.findByIdAndDelete(id)] *)
Definition findByIdAndDelete (m : Model) (id : string) (st : Store)
  : StoreError + Store * option Doc :=
  match castObjectId id with
  | None => inl (CastError "_id")
  | Some i =>
      match split_first (λ d, bool_decide (_id d = i)) (st m) with
      | None => inr (st, None)
      | Some (before, d, after) =>
          inr (set_collection m (before ++ after) st, Some d)
      end
  end.

(** The defaults an upsert adds for the paths the new document lacks. *)
Definition with_defaults (ps : list Path) (fs : gmap string Value)
  : gmap string Value :=
  foldr (λ p acc,
           match p_default p, acc !! p_name p with
           | Some v, None => <[p_name p := v]> acc
           | _, _ => acc
           end) fs ps.

(** [Model.findOneAndUpdate({ k: v }, upd, { new: true, upsert: true, ... })]:
    update the first match, else insert the document built from the filter's
    equality and the update, under the [_id] the update sets or else a
    generated one. *)
Definition findOneAndUpdate_upsert (m : Model) (k : string) (v : string)
    (upd : gmap string JValue) (setDefaultsOnInsert : option bool)
    (env : Env) (st : Store)
  : StoreError + Store * Doc :=
  await newId <- set_of_id upd;
  await g <- castUpdate (schema m) upd;
  match split_first (matches (FEq k (VStr v))) (st m) with
  | Some (before, d, after) =>
      match check_id newId d with
      | Some e => inl e
      | None =>
          let d' := updated (schema m) g env d in
          match duplicate_on_update (schema m) (before ++ after) d d' with
          | Some e => inl e
          | None => inr (set_collection m (before ++ d' :: after) st, d')
          end
      end
  | None =>
      let fs := g {[ k := VStr v ]} in
      let fs' := if default setDefaultsOnInsert_default setDefaultsOnInsert
                 then with_defaults (s_paths (schema m)) fs else fs in
      let stamp := if s_timestamps (schema m) then Some (now env) else None in
      let d' := {| _id := default (oid env) newId; fields := fs';
                   createdAt := stamp; updatedAt := stamp |} in
      match duplicate_on_insert (schema m) (st m) d' with
      | Some e => inl e
      | None => inr (set_collection m (st m ++ [d']) st, d')
      end
  end.

(** [query.select('-k')]: the document without the field [k]. *)
Definition select_without (k : string) (d : Doc) : Doc :=
  {| _id := _id d; fields := delete k (fields d);
     createdAt := createdAt d; updatedAt := updatedAt d |}.

End Queries.

(** ** Responses and handlers *)

Inductive ResBody :=
| RMessage (m : string)                       (* [{ message }] *)
| RDocs (l : list Doc)                        (* an array of documents *)
| RDoc (d : Doc)                              (* one document *)
| REmpty                                      (* [{}] *)
| RLogin (token : string) (name role : option Value)
| RUser (id : string) (name email role status : JValue)
| RNoRoute.                                   (* no route matched *)

Record Response := { status : Z; json : ResBody }.

Definition Handler : Type := Env → Request → Store → Store * Response.

(** What a middleware does: answer, or pass the request on. *)
Inductive GateResult :=
| Respond (r : Response)
| Next (req : Request).

(** A stored value as the JavaScript value a handler reads. *)
Definition toJ (v : option Value) : JValue :=
  match v with
  | None => JUndefined
  | Some VNull => JNull
  | Some (VBool b) => JBool b
  | Some (VStr s) => JStr s
  | Some (VStrs l) =>
      JArr (List.map (λ o, match o with Some s => JStr s | None => JNull end) l)
  end.

(** The engine's [v > 0] where [v] is no number. *)
Class Runtime := { gt_zero : JValue → bool }.

(** [v.length > 0] for a truthy [v]. *)
Definition length_gt_zero `{Runtime} (v : JValue) : bool :=
  match v with
  | JStr s => negb (String.eqb s "")
  | JArr l => negb (bool_decide (l = []))
  | JObj o => match prop o "length" with
              | JUndefined => false
              | JNum n => 0 <? n
              | w => gt_zero w
              end
  | _ => false
  end.

Section Server.
Context `{Crypto} `{Mongoose} `{Runtime}.

(** *** 4. Services and middleware *)

Definition hashPassword (password : JValue) (env : Env) : StoreError + string :=
  match bcrypt_hash password (salt env) with
  | Some h => inr h
  | None => inl IllegalArguments
  end.

Definition verifyPassword (providedPassword storedHash : JValue)
  : StoreError + bool :=
  match bcrypt_compare providedPassword storedHash with
  | Some b => inr b
  | None => inl IllegalArguments
  end.

(** [authHeader && authHeader.split(' ')[1]]; [None] is [undefined]. *)
Definition bearer (authHeader : option string) : option string :=
  match authHeader with
  | None => None
  | Some h => if String.eqb h "" then Some "" else split Ascii.Space h !! 1%nat
  end.

Definition authMiddleware (requiredRole : string) (env : Env) (req : Request)
  : GateResult :=
  match bearer (authorization req) with
  | None | Some "" =>
      Respond {| status := 401;
                 json := RMessage "Access denied. No token provided." |}
  | Some token =>
      match jwt_verify token (secret env) (now env) with
      | inr decoded =>
          if String.eqb requiredRole "Administrator"
             && negb (is_str (prop decoded "role") "Administrator")
          then Respond {| status := 403;
                          json := RMessage "Forbidden: Administrator access required." |}
          else Next (set_user req decoded)
      | inl _ =>
          Respond {| status := 400; json := RMessage "Invalid token." |}
      end
  end.

(** A route's middleware followed by its handler. *)
Definition gated (gate : Env → Request → GateResult) (h : Handler) : Handler :=
  λ env req st,
    match gate env req with
    | Respond r => (st, r)
    | Next req' => h env req' st
    end.

(** *** 5. Generic CRUD controller factory *)

Record Controller := {
  getPublic : Handler;
  getAllAdmin : Handler;
  create : Handler;
  update : Handler;
  delete_ : Handler;
  getSingleton : Handler;
  updateSingleton : Handler
}.

Definition createCrudController (m : Model) : Controller :=
  {| getPublic := λ env req st,
       (st, {| status := 200;
               json := RDocs (find_sorted m (FEq "published" (VBool true)) st) |});
     getAllAdmin := λ env req st,
       (st, {| status := 200; json := RDocs (find_sorted m FAll st) |});
     create := λ env req st,
       match save m (body req) env st with
       | inr (st', newItem) => (st', {| status := 201; json := RDoc newItem |})
       | inl err => (st, {| status := 400; json := RMessage (message err) |})
       end;
     update := λ env req st,
       match findByIdAndUpdate m (param req "id") (body req) env st with
       | inr (st', None) =>
           (st', {| status := 404; json := RMessage "Item not found" |})
       | inr (st', Some updatedItem) =>
           (st', {| status := 200; json := RDoc updatedItem |})
       | inl err => (st, {| status := 400; json := RMessage (message err) |})
       end;
     delete_ := λ env req st,
       match findByIdAndDelete m (param req "id") st with
       | inr (st', None) =>
           (st', {| status := 404; json := RMessage "Item not found" |})
       | inr (st', Some _) =>
           (st', {| status := 200; json := RMessage "Item deleted successfully" |})
       | inl err => (st, {| status := 500; json := RMessage (message err) |})
       end;
     getSingleton := λ env req st,
       match findOne m (FEq "singleton" (VStr "main")) st with
       | Some item => (st, {| status := 200; json := RDoc item |})
       | None => (st, {| status := 200; json := REmpty |})
       end;
     updateSingleton := λ env req st,
       match findOneAndUpdate_upsert m "singleton" "main" (body req)
               (Some true) env st with
       | inr (st', updatedItem) =>
           (st', {| status := 200; json := RDoc updatedItem |})
       | inl err => (st, {| status := 400; json := RMessage (message err) |})
       end |}.

(** *** 6. Routes *)

Inductive Method := GET | POST | PUT | DELETE.

#[global] Instance Method_eq_dec : EqDecision Method.
Proof. solve_decision. Defined.

(** A route: method, path below the mount point (a literal [all] or a
    parameter [:id]), the optional gate and the handler. *)
Inductive Segment := Lit (s : string) | Param (name : string).

Record Route := {
  r_method : Method;
  r_pattern : list Segment;
  r_gate : option (Env → Request → GateResult);
  r_handler : Handler
}.

(** [POST /login] *)
Definition login : Handler := λ env req st,
  let email := prop (body req) "email" in
  let password := prop (body req) "password" in
  match castQuery emailPath email with
  | None => (st, {| status := 500; json := RMessage "Server error" |})
  | Some sel =>
      match findOne User (FRaw "email" sel) st with
      | None =>
          (st, {| status := 401;
                  json := RMessage "Invalid credentials or inactive user." |})
      | Some user =>
          if negb (bool_decide (fields user !! "status" = Some (VStr "Active")))
          then (st, {| status := 401;
                       json := RMessage "Invalid credentials or inactive user." |})
          else
            match verifyPassword password (toJ (fields user !! "passwordHash")) with
            | inl _ => (st, {| status := 500; json := RMessage "Server error" |})
            | inr false =>
                (st, {| status := 401; json := RMessage "Invalid credentials." |})
            | inr true =>
                let payload : gmap string JValue :=
                  {[ "id" := JStr (_id user);
                     "name" := toJ (fields user !! "name");
                     "role" := toJ (fields user !! "role") ]} in
                let token := jwt_sign payload (secret env) 28800 (now env) in
                (st, {| status := 200;
                        json := RLogin token (fields user !! "name")
                                       (fields user !! "role") |})
            end
      end
  end.

Definition authRouter : list Route :=
  [ {| r_method := POST; r_pattern := [Lit "login"]; r_gate := None;
       r_handler := login |} ].

Definition defineCrudRoutes (model : Model) : list Route :=
  let controller := createCrudController model in
  [ {| r_method := GET; r_pattern := []; r_gate := None;
       r_handler := getPublic controller |};
    {| r_method := GET; r_pattern := [Lit "all"];
       r_gate := Some (authMiddleware "Editor");
       r_handler := getAllAdmin controller |};
    {| r_method := POST; r_pattern := [];
       r_gate := Some (authMiddleware "Editor");
       r_handler := create controller |};
    {| r_method := PUT; r_pattern := [Param "id"];
       r_gate := Some (authMiddleware "Editor");
       r_handler := update controller |};
    {| r_method := DELETE; r_pattern := [Param "id"];
       r_gate := Some (authMiddleware "Administrator");
       r_handler := delete_ controller |} ].

(** [POST /users] *)
Definition createUser : Handler := λ env req st,
  let name := prop (body req) "name" in
  let email := prop (body req) "email" in
  let password := prop (body req) "password" in
  let role := prop (body req) "role" in
  let status_ := prop (body req) "status" in
  if negb (truthy name) || negb (truthy email) || negb (truthy password)
     || negb (truthy role) || negb (truthy status_)
  then (st, {| status := 400; json := RMessage "All fields are required" |})
  else
    let attempt : StoreError + Store * Response :=
      match castQuery emailPath email with
      | None => inl (CastError "email")
      | Some sel =>
          match findOne User (FRaw "email" sel) st with
          | Some _ =>
              inr (st, {| status := 400; json := RMessage "Email already exists" |})
          | None =>
              await passwordHash <- hashPassword password env;
              await saved <- save User
                {[ "name" := name; "email" := email;
                   "passwordHash" := JStr passwordHash;
                   "role" := role; "status" := status_ ]} env st;
              inr (saved.1,
                   {| status := 201;
                      json := RUser (_id saved.2) name email role status_ |})
          end
      end in
    match attempt with
    | inr out => out
    | inl err => (st, {| status := 400; json := RMessage (message err) |})
    end.

(** [if (v) updateData.k = v] *)
Definition assign_if_truthy (k : string) (v : JValue)
    (updateData : gmap string JValue) : gmap string JValue :=
  if truthy v then <[k := v]> updateData else updateData.

(** [PUT /users/:id] *)
Definition updateUser : Handler := λ env req st,
  let name := prop (body req) "name" in
  let email := prop (body req) "email" in
  let role := prop (body req) "role" in
  let status_ := prop (body req) "status" in
  let password := prop (body req) "password" in
  let updateData :=
    assign_if_truthy "status" status_
      (assign_if_truthy "role" role
        (assign_if_truthy "email" email
          (assign_if_truthy "name" name ∅))) in
  let attempt : StoreError + Store * option Doc :=
    await updateData' <-
      (if truthy password && length_gt_zero password
       then await h <- hashPassword password env;
            inr (<["passwordHash" := JStr h]> updateData)
       else inr updateData);
    await found <- findByIdAndUpdate User (param req "id") updateData' env st;
    inr (found.1, select_without "passwordHash" <$> found.2) in
  match attempt with
  | inr (st', None) =>
      (st', {| status := 404; json := RMessage "User not found" |})
  | inr (st', Some updatedUser) =>
      (st', {| status := 200; json := RDoc updatedUser |})
  | inl err => (st, {| status := 400; json := RMessage (message err) |})
  end.

Definition userRouter : list Route :=
  let userController := createCrudController User in
  [ {| r_method := GET; r_pattern := [];
       r_gate := Some (authMiddleware "Administrator");
       r_handler := getAllAdmin userController |};
    {| r_method := POST; r_pattern := [];
       r_gate := Some (authMiddleware "Administrator");
       r_handler := createUser |};
    {| r_method := PUT; r_pattern := [Param "id"];
       r_gate := Some (authMiddleware "Administrator");
       r_handler := updateUser |};
    {| r_method := DELETE; r_pattern := [Param "id"];
       r_gate := Some (authMiddleware "Administrator");
       r_handler := delete_ userController |} ].

(** The routers of the two singleton documents. *)
Definition singletonRouter (model : Model) : list Route :=
  let controller := createCrudController model in
  [ {| r_method := GET; r_pattern := []; r_gate := None;
       r_handler := getSingleton controller |};
    {| r_method := PUT; r_pattern := [];
       r_gate := Some (authMiddleware "Editor");
       r_handler := updateSingleton controller |} ].

Definition personalInfoRouter : list Route := singletonRouter PersonalInfo.
Definition skillsRouter : list Route := singletonRouter Skills.

(** [GET /sections/:sectionId] *)
Definition getSection : Handler := λ env req st,
  match findOne SingleSection
          (FEq "sectionId" (VStr (param req "sectionId"))) st with
  | Some item => (st, {| status := 200; json := RDoc item |})
  | None => (st, {| status := 200; json := REmpty |})
  end.

(** [PUT /sections/:sectionId] *)
Definition putSection : Handler := λ env req st,
  let title := prop (body req) "title" in
  let description := prop (body req) "description" in
  match findOneAndUpdate_upsert SingleSection
          "sectionId" (param req "sectionId")
          {[ "title" := title; "description" := description ]}
          None env st with
  | inr (st', updatedSection) =>
      (st', {| status := 200; json := RDoc updatedSection |})
  | inl err => (st, {| status := 400; json := RMessage (message err) |})
  end.

Definition singleSectionRouter : list Route :=
  [ {| r_method := GET; r_pattern := [Param "sectionId"]; r_gate := None;
       r_handler := getSection |};
    {| r_method := PUT; r_pattern := [Param "sectionId"];
       r_gate := Some (authMiddleware "Editor");
       r_handler := putSection |} ].

(** [app.use('/api/<name>', router)], in the order of [server.js]. *)
Definition app : list (string * list Route) :=
  [ ("auth", authRouter);
    ("projects", defineCrudRoutes Project);
    ("experience", defineCrudRoutes Experience);
    ("expertise", defineCrudRoutes Expertise);
    ("logs", defineCrudRoutes EngineeringLog);
    ("users", userRouter);
    ("personal-info", personalInfoRouter);
    ("skills", skillsRouter);
    ("sections", singleSectionRouter) ].

(** Matching of a path (its segments) against a route pattern; the bound
    parameters.  A literal matches without regard to case, a parameter
    matches one non-empty segment. *)
Fixpoint match_pattern (pat : list Segment) (segs : list string)
  : option (gmap string string) :=
  match pat, segs with
  | [], [] => Some ∅
  | Lit s :: pat', x :: segs' =>
      if same_segment s x then match_pattern pat' segs' else None
  | Param k :: pat', x :: segs' =>
      if String.eqb x "" then None
      else (λ ps, <[k := x]> ps) <$> match_pattern pat' segs'
  | _, _ => None
  end.

Definition with_params (req : Request) (ps : gmap string string) : Request :=
  {| authorization := authorization req; params := ps;
     body := body req; user := user req |}.

(** The first route of a router that takes the request. *)
Fixpoint route (rs : list Route) (meth : Method) (segs : list string)
  : option (Route * gmap string string) :=
  match rs with
  | [] => None
  | r :: rs' =>
      match (if bool_decide (r_method r = meth)
             then match_pattern (r_pattern r) segs else None) with
      | Some ps => Some (r, ps)
      | None => route rs' meth segs
      end
  end.

Definition run_route (r : Route) : Handler :=
  match r_gate r with
  | Some gate => gated gate (r_handler r)
  | None => r_handler r
  end.

(** The application on a request for [/api/<name>/<segs>]: the routers are
    tried in mounting order, a mount path matching without regard to case;
    an unmatched request gets the framework's 404. *)
Fixpoint dispatch (mounts : list (string * list Route)) (meth : Method)
    (name : string) (segs : list string) : Handler :=
  match mounts with
  | [] => λ env req st, (st, {| status := 404; json := RNoRoute |})
  | (prefix, rs) :: mounts' =>
      match (if same_segment prefix name then route rs meth segs else None) with
      | Some (r, ps) => λ env req st, run_route r env (with_params req ps) st
      | None => dispatch mounts' meth name segs
      end
  end.

Definition serve : Method → string → list string → Handler := dispatch app.

End Server.

(** ** A small instance of the libraries

    Enough of the mapper and of the credential libraries to run the handlers
    on concrete requests: tokens are a length-prefixed rendering of key,
    claims and times, a hash is the salt followed by the password, casting
    follows the mapper for strings, booleans and arrays of strings; update
    operators, dotted paths and identifiers that are no strings are
    refused. *)

Module Sample.

(** Encoders write in front of what follows. *)
Fixpoint put_ones (n : nat) (rest : string) : string :=
  match n with
  | O => rest
  | S n' => String "1" (put_ones n' rest)
  end.

Fixpoint put_chars (s rest : string) : string :=
  match s with
  | EmptyString => rest
  | String c s' => String c (put_chars s' rest)
  end.

(** A string, prefixed by its length in unary. *)
Definition put_str (s rest : string) : string :=
  put_ones (String.length s) (String "0" (put_chars s rest)).

(** A number: its sign, then its binary digits from the lowest, the highest
    written as a dot. *)
Fixpoint put_pos (p : positive) (rest : string) : string :=
  match p with
  | xH => String "." rest
  | xO p' => String "0" (put_pos p' rest)
  | xI p' => String "1" (put_pos p' rest)
  end.

Definition put_Z (z : Z) (rest : string) : string :=
  match z with
  | Z0 => String "z" rest
  | Zpos p => String "+" (put_pos p rest)
  | Zneg p => String "-" (put_pos p rest)
  end.

Fixpoint dec_pos (s : string) : option (positive * string) :=
  match s with
  | EmptyString => None
  | String c r =>
      if Ascii.eqb c "." then Some (xH, r)
      else match dec_pos r with
           | Some (p, r') =>
               if Ascii.eqb c "0" then Some (xO p, r')
               else if Ascii.eqb c "1" then Some (xI p, r')
               else None
           | None => None
           end
  end.

Fixpoint count_ones (s : string) : option (nat * string) :=
  match s with
  | EmptyString => None
  | String c r =>
      if Ascii.eqb c "1" then
        match count_ones r with
        | Some (n, r') => Some (S n, r')
        | None => None
        end
      else if Ascii.eqb c "0" then Some (O, r)
      else None
  end.

Fixpoint take_chars (n : nat) (s : string) : option (string * string) :=
  match n, s with
  | O, _ => Some ("", s)
  | S n', String c r =>
      match take_chars n' r with
      | Some (a, b) => Some (String c a, b)
      | None => None
      end
  | S _, EmptyString => None
  end.

Definition dec_str (s : string) : option (string * string) :=
  match count_ones s with
  | Some (n, r) => take_chars n r
  | None => None
  end.

Definition dec_Z (s : string) : option (Z * string) :=
  match s with
  | EmptyString => None
  | String c r =>
      if Ascii.eqb c "z" then Some (0, r)
      else match dec_pos r with
           | Some (p, r') =>
               if Ascii.eqb c "+" then Some (Zpos p, r')
               else if Ascii.eqb c "-" then Some (Zneg p, r')
               else None
           | None => None
           end
  end.

Definition str_of (v : JValue) : string :=
  match v with
  | JStr s => s
  | _ => ""
  end.

Definition sign (payload : gmap string JValue) (key : string) (ttl t : Z)
  : string :=
  put_str key
    (put_str (str_of (prop payload "id"))
      (put_str (str_of (prop payload "name"))
        (put_str (str_of (prop payload "role"))
          (put_Z t (put_Z (t + ttl) ""))))).

Definition verify (token key : string) (t : Z)
  : JwtError + gmap string JValue :=
  match dec_str token with
  | Some (k, r1) =>
  match dec_str r1 with
  | Some (id, r2) =>
  match dec_str r2 with
  | Some (name, r3) =>
  match dec_str r3 with
  | Some (role, r4) =>
  match dec_Z r4 with
  | Some (iat, r5) =>
  match dec_Z r5 with
  | Some (exp, _) =>
      if negb (String.eqb k key) then inl InvalidSignature
      else if exp <=? t then inl Expired
      else inr (<[ "iat" := JNum iat ]> (<[ "exp" := JNum exp ]>
                 {[ "id" := JStr id; "name" := JStr name; "role" := JStr role ]}))
  | None => inl Malformed end
  | None => inl Malformed end
  | None => inl Malformed end
  | None => inl Malformed end
  | None => inl Malformed end
  | None => inl Malformed end.

Definition crypto : Crypto :=
  {| jwt_sign := sign;
     jwt_verify := verify;
     bcrypt_hash := λ password salt,
       match password with
       | JStr p => Some (put_str salt p)
       | _ => None
       end;
     bcrypt_compare := λ provided stored,
       match provided, stored with
       | JStr p, JStr h =>
           match dec_str h with
           | Some (_, p') => Some (String.eqb p p')
           | None => Some false
           end
       | _, _ => None
       end |}.

Definition is_space (c : ascii) : bool :=
  let n := nat_of_ascii c in
  ((n =? 32) || (n =? 9) || (n =? 10) || (n =? 13))%nat.

Fixpoint drop_spaces (l : list ascii) : list ascii :=
  match l with
  | c :: l' => if is_space c then drop_spaces l' else l
  | [] => []
  end.

Definition trim_string (s : string) : string :=
  String.string_of_list_ascii
    (rev (drop_spaces (rev (drop_spaces (String.list_ascii_of_string s))))).

Definition setters (p : Path) (s : string) : string :=
  let s1 := if p_trim p then trim_string s else s in
  if p_lowercase p then lower_string s1 else s1.

Definition is_hex (c : ascii) : bool :=
  let n := nat_of_ascii (lower c) in
  (((48 <=? n) && (n <=? 57)) || ((97 <=? n) && (n <=? 102)))%nat.

Definition cast_string (p : Path) (v : JValue) : option (option string) :=
  match v with
  | JNull => Some None
  | JStr s => Some (Some (setters p s))
  | JNum n => Some (Some (setters p (pretty n)))
  | JBool b => Some (Some (if b then "true" else "false"))
  | _ => None
  end.

Definition cast_boolean (v : JValue) : option Value :=
  match v with
  | JNull => Some VNull
  | JBool b => Some (VBool b)
  | JNum 1 => Some (VBool true)
  | JNum 0 => Some (VBool false)
  | JStr s =>
      if bool_decide (s ∈ ["true"; "1"; "yes"]) then Some (VBool true)
      else if bool_decide (s ∈ ["false"; "0"; "no"]) then Some (VBool false)
      else None
  | _ => None
  end.

Fixpoint cast_strings (p : Path) (l : list JValue) : option (list (option string)) :=
  match l with
  | [] => Some []
  | v :: l' =>
      match cast_string p v, cast_strings p l' with
      | Some x, Some xs => Some (x :: xs)
      | _, _ => None
      end
  end.

Definition of_string_option (o : option string) : Value :=
  match o with
  | Some s => VStr s
  | None => VNull
  end.

Definition mongoose : Mongoose :=
  {| castObjectId := λ s,
       if ((String.length s =? 24)%nat
           && forallb is_hex (String.list_ascii_of_string s))
       then Some (lower_string s) else None;
     castId := λ _, None;
     castPath := λ p v,
       match p_type p with
       | TString => of_string_option <$> cast_string p v
       | TBoolean => cast_boolean v
       | TStringArray =>
           match v with
           | JNull => Some VNull
           | JArr l => VStrs <$> cast_strings p l
           | _ => (λ x, VStrs [x]) <$> cast_string p v
           end
       end;
     castQuery := λ p q,
       match q with
       | JStr s => Some (λ v, bool_decide (v = Some (VStr (setters p s))))
       | JNull => Some (λ v, bool_decide (default VNull v = VNull))
       | _ => None
       end;
     castOperators := λ _ _, None;
     omitUndefined := true;
     setDefaultsOnInsert_default := true;
     message := λ e,
       match e with
       | CastError k => "Cast failed at path " +:+ k
       | ValidatorError k => "Validation failed at path " +:+ k
       | DuplicateKey k => "E11000 duplicate key error on " +:+ k
       | ImmutableField k => "Update would modify the immutable field " +:+ k
       | OperatorError => "Unknown modifier"
       | IllegalArguments => "Illegal arguments"
       end |}.

Definition runtime : Runtime :=
  {| gt_zero := λ v, match v with JBool b => b | _ => false end |}.

(** An empty store, and a request. *)
Definition empty : Store := λ _, [].

Definition request (auth : option string) (b : gmap string JValue) : Request :=
  {| authorization := auth; params := ∅; body := b; user := None |}.

Definition env0 : Env :=
  {| now := 100; oid := "0123456789abcdef01234567"; salt := "s";
     JWT_SECRET := None |}.

End Sample.

(** ** Vocabulary of the properties *)

(** The three answers of the gate. *)
Definition unauthorized : Response :=
  {| status := 401; json := RMessage "Access denied. No token provided." |}.
Definition bad_token : Response :=
  {| status := 400; json := RMessage "Invalid token." |}.
Definition forbidden : Response :=
  {| status := 403; json := RMessage "Forbidden: Administrator access required." |}.

(** The two refusals of login. *)
Definition invalid_or_inactive : Response :=
  {| status := 401; json := RMessage "Invalid credentials or inactive user." |}.
Definition invalid_credentials : Response :=
  {| status := 401; json := RMessage "Invalid credentials." |}.

(** The answer for a record that does not exist yet. *)
Definition ok_empty : Response := {| status := 200; json := REmpty |}.

(** The answer of the generic update and delete for an absent record. *)
Definition item_not_found : Response :=
  {| status := 404; json := RMessage "Item not found" |}.

(** The four content resources: endpoint name and model. *)
Definition contentResources : list (string * Model) :=
  [ ("projects", Project); ("experience", Experience);
    ("expertise", Expertise); ("logs", EngineeringLog) ].


(** The published flag of a stored document, as the query reads it. *)
Definition is_published (d : Doc) : bool :=
  bool_decide (fields d !! "published" = Some (VBool true)).

(** An object made of field names only: no operator key, no dotted path. *)
Definition plain (upd : gmap string JValue) : bool :=
  bool_decide (map_Forall (λ k _, is_operator k = false) upd).



(** The update object a PUT on a keyed section builds from the body. *)
Definition sectionUpdate (req : Request) : gmap string JValue :=
  {[ "title" := prop (body req) "title";
     "description" := prop (body req) "description" ]}.

(** The password hash stored for the user of identifier [i]. *)
Definition stored_hash (st : Store) (i : string) : option Value :=
  match List.find (λ d, bool_decide (_id d = i)) (st User) with
  | Some d => fields d !! "passwordHash"
  | None => None
  end.

(** The claims signed for a user at login. *)
Definition loginPayload (u : Doc) : gmap string JValue :=
  {[ "id" := JStr (_id u);
     "name" := toJ (fields u !! "name");
     "role" := toJ (fields u !! "role") ]}.

(** A string without a space character. *)
Fixpoint spaceless (s : string) : bool :=
  match s with
  | EmptyString => true
  | String c s' => negb (Ascii.eqb c Ascii.Space) && spaceless s'
  end.

(** The Authorization header [h] carries the token [t]: [t] is the second of
    the words that single spaces separate in [h]; it is empty when the
    first space ends the header or is followed by another space. *)
Inductive carries : string → string → Prop :=
| carries_last (scheme t : string) :
    spaceless scheme = true → spaceless t = true →
    carries (scheme +:+ String Ascii.Space t) t
| carries_more (scheme t rest : string) :
    spaceless scheme = true → spaceless t = true →
    carries (scheme +:+ String Ascii.Space (t +:+ String Ascii.Space rest)) t.

(** The request presents the token [t]: its header carries [t], and [t] is
    not empty. *)
Definition presents (req : Request) (t : string) : Prop :=
  ∃ h, authorization req = Some h ∧ carries h t ∧ t ≠ "".

(** The request presents no token: it has no Authorization header, or the
    header has no space, or the token the header carries is empty. *)
Definition no_token (req : Request) : Prop :=
  authorization req = None
  ∨ ∃ h, authorization req = Some h ∧ (spaceless h = true ∨ carries h "").

(** ** What a request may do to the store *)

(** The three ways a collection is written. *)
Inductive Kind := KInsert | KUpdate | KDelete.

(** One write to the collection of [m]: a document that passes the unique
    indexes is appended; or one document is rewritten in place, keeping its
    identifier and creation time, the indexes whose key changed being
    checked; or one document is removed.  The other collections stay. *)
Inductive Step (m : Model) (st st' : Store) : Kind → Prop :=
| step_insert (d : Doc) :
    duplicate_on_insert (schema m) (st m) d = None →
    st' = set_collection m (st m ++ [d]) st →
    Step m st st' KInsert
| step_update (before : list Doc) (old d : Doc) (after : list Doc) :
    st m = before ++ old :: after →
    _id d = _id old → createdAt d = createdAt old →
    duplicate_on_update (schema m) (before ++ after) old d = None →
    st' = set_collection m (before ++ d :: after) st →
    Step m st st' KUpdate
| step_delete (before : list Doc) (old : Doc) (after : list Doc) :
    st m = before ++ old :: after →
    st' = set_collection m (before ++ after) st →
    Step m st st' KDelete.

(** The model mounted under an endpoint name ([app.use('/api/<name>', ...)]);
    the name is matched without regard to case. *)
Definition endpointModel (name : string) : option Model :=
  if same_segment name "projects" then Some Project
  else if same_segment name "experience" then Some Experience
  else if same_segment name "expertise" then Some Expertise
  else if same_segment name "logs" then Some EngineeringLog
  else if same_segment name "users" then Some User
  else if same_segment name "personal-info" then Some PersonalInfo
  else if same_segment name "skills" then Some Skills
  else if same_segment name "sections" then Some SingleSection
  else None.

(** The writes that have a route: the singleton documents and the keyed
    sections have no delete route. *)
Definition permits (m : Model) (k : Kind) : bool :=
  match k, m with
  | KDelete, (PersonalInfo | Skills | SingleSection) => false
  | _, _ => true
  end.

(** The writes whose route stands behind the Administrator gate: every
    delete, and every write to the users. *)
Definition needs_admin (m : Model) (k : Kind) : bool :=
  match k, m with
  | KDelete, _ => true
  | _, User => true
  | _, _ => false
  end.

(** The request carries a token that verifies, with the Administrator role
    claim when [admin] is set. *)
Definition authenticated `{Crypto} (env : Env) (authHeader : option string)
    (admin : bool) : Prop :=
  ∃ t claims,
    bearer authHeader = Some t ∧ t ≠ ""
    ∧ jwt_verify t (secret env) (now env) = inr claims
    ∧ (admin = true → prop claims "role" = JStr "Administrator").

(** The store's unique indexes hold: in every collection no two documents
    share an identifier, nor the key of a path declared unique. *)
Definition consistent_collection (sch : Schema) (l : list Doc) : Prop :=
  NoDup (_id <$> l)
  ∧ Forall (λ p, p_unique p = true →
                 NoDup ((λ d, index_key d (p_name p)) <$> l)) (s_paths sch).

Definition consistent (st : Store) : Prop :=
  ∀ m, consistent_collection (schema m) (st m).

(** A handler that writes to [m] at most once, by one of the kinds [ks]. *)
Definition writes (m : Model) (ks : list Kind) (h : Handler) : Prop :=
  ∀ env req st,
    (h env req st).1 = st ∨ ∃ k, k ∈ ks ∧ Step m st (h env req st).1 k.

(** What one request to [/api/<name>/...] does to the store: nothing, or one
    write that has a route, to the collection mounted under the name, by a
    request that passed the gate of that route. *)
Definition Effect `{Crypto} (name : string) (env : Env)
    (authHeader : option string) (st st' : Store) : Prop :=
  st' = st
  ∨ ∃ m k, endpointModel name = Some m ∧ permits m k = true
           ∧ Step m st st' k
           ∧ authenticated env authHeader (needs_admin m k).

(** ** Concrete stores and requests *)

Module Fixture.
Import Sample.

Definition aliceId : string := "aaaaaaaaaaaaaaaaaaaaaaaa".
Definition bobId : string := "bbbbbbbbbbbbbbbbbbbbbbbb".

(** An active administrator whose password is [x]. *)
Definition alice : Doc :=
  {| _id := aliceId;
     fields := {[ "name" := VStr "Alice"; "email" := VStr "a@b.com";
                  "passwordHash" := VStr (put_str "s" "x");
                  "role" := VStr "Administrator"; "status" := VStr "Active" ]};
     createdAt := None; updatedAt := None |}.

(** An inactive editor whose password is [y]. *)
Definition bob : Doc :=
  {| _id := bobId;
     fields := {[ "name" := VStr "Bob"; "email" := VStr "bob@b.com";
                  "passwordHash" := VStr (put_str "s" "y");
                  "role" := VStr "Editor"; "status" := VStr "Inactive" ]};
     createdAt := None; updatedAt := None |}.

Definition users : Store :=
  λ m, match m with User => [alice; bob] | _ => [] end.

Definition selects (email : string) : option Value → bool :=
  λ v, bool_decide (v = Some (VStr email)).

Definition loginRequest (email password : string) : Request :=
  request None {[ "email" := JStr email; "password" := JStr password ]}.

(** A request whose route bound the parameter [k]. *)
Definition bound (k v : string) (b : gmap string JValue) : Request :=
  {| authorization := None; params := {[ k := v ]}; body := b; user := None |}.

(** A draft project. *)
Definition draftId : string := "cccccccccccccccccccccccc".
Definition draft : Doc :=
  {| _id := draftId;
     fields := {[ "title" := VStr "T"; "description" := VStr "D";
                  "published" := VBool false ]};
     createdAt := Some 10; updatedAt := Some 10 |}.
Definition projects : Store :=
  λ m, match m with Project => [draft] | _ => [] end.

Definition env1 : Env :=
  {| now := 200; oid := "0123456789abcdef01234568"; salt := "t";
     JWT_SECRET := None |}.

(** A token for an editor, signed with the default secret at time 100. *)
Definition editorToken : string :=
  sign {[ "id" := JStr bobId; "name" := JStr "Bob"; "role" := JStr "Editor" ]}
       (secret env0) 28800 100.

Definition editorClaims : gmap string JValue :=
  <[ "iat" := JNum 100 ]> (<[ "exp" := JNum 28900 ]>
    {[ "id" := JStr bobId; "name" := JStr "Bob"; "role" := JStr "Editor" ]}).

Definition authorized (token : string) (b : gmap string JValue) : Request :=
  request (Some ("Bearer " +:+ token)) b.

(** The token a login of alice at time 100 issues, and what it decodes to. *)
Definition adminToken : string :=
  sign {[ "id" := JStr aliceId; "name" := JStr "Alice";
          "role" := JStr "Administrator" ]}
       (secret env0) 28800 100.

Definition adminClaims : gmap string JValue :=
  <[ "iat" := JNum 100 ]> (<[ "exp" := JNum 28900 ]>
    {[ "id" := JStr aliceId; "name" := JStr "Alice";
       "role" := JStr "Administrator" ]}).

(** A new project, and a new user. *)
Definition projectBody : gmap string JValue :=
  {[ "title" := JStr "T"; "description" := JStr "D" ]}.

Definition carolBody : gmap string JValue :=
  {[ "name" := JStr "Carol"; "email" := JStr "c@b.com";
     "password" := JStr "z"; "role" := JStr "Editor";
     "status" := JStr "Active" ]}.

End Fixture.

(** * Properties *)

(** ** The authorization gate *)

Lemma is_str_spec (v : JValue) (lit : string) :
  is_str v lit = true ↔ v = JStr lit.
Proof.
  destruct v; simpl; try (split; [discriminate | congruence]).
  rewrite String.eqb_eq. split; congruence.
Qed.

Lemma is_str_false (v : JValue) (lit : string) :
  is_str v lit = false ↔ v ≠ JStr lit.
Proof.
  rewrite <- is_str_spec. destruct (is_str v lit); split; congruence.
Qed.

Lemma split_word (scheme rest : string) :
  spaceless scheme = true →
  split Ascii.Space (scheme +:+ String Ascii.Space rest)
  = scheme :: split Ascii.Space rest.
Proof.
  induction scheme as [|c scheme IH]; intros Hs.
  - change ("" +:+ String Ascii.Space rest) with (String Ascii.Space rest).
    reflexivity.
  - change (String c scheme +:+ String Ascii.Space rest)
      with (String c (scheme +:+ String Ascii.Space rest)).
    simpl in Hs. apply andb_prop in Hs as [Hc Hs]. apply negb_true_iff in Hc.
    cbn [split]. rewrite Hc. by rewrite IH.
Qed.

Lemma split_spaceless (w : string) :
  spaceless w = true → split Ascii.Space w = [w].
Proof.
  induction w as [|c w IH]; intros Hs; [done|].
  simpl in Hs. apply andb_prop in Hs as [Hc Hs]. apply negb_true_iff in Hc.
  cbn [split]. rewrite Hc. by rewrite IH.
Qed.

Lemma append_nonempty (scheme rest : string) :
  String.eqb (scheme +:+ String Ascii.Space rest) "" = false.
Proof. by destruct scheme. Qed.

Lemma bearer_word (scheme rest : string) :
  spaceless scheme = true →
  bearer (Some (scheme +:+ String Ascii.Space rest))
  = head (split Ascii.Space rest).
Proof.
  intros Hs. unfold bearer. rewrite append_nonempty, split_word by done.
  by destruct (split Ascii.Space rest).
Qed.

Lemma bearer_word_token (scheme token : string) :
  spaceless scheme = true → spaceless token = true →
  bearer (Some (scheme +:+ String Ascii.Space token)) = Some token.
Proof. intros Hs Ht. by rewrite bearer_word, split_spaceless. Qed.

Lemma first_space (s : string) :
  spaceless s = true
  ∨ ∃ a b, s = a +:+ String Ascii.Space b ∧ spaceless a = true.
Proof.
  induction s as [|c s IH]; [by left|].
  destruct (Ascii.eqb c Ascii.Space) eqn:Hc.
  - right. apply Ascii.eqb_eq in Hc as ->. by exists "", s.
  - destruct IH as [Hs|(a & b & -> & Ha)].
    + left. simpl. by rewrite Hc, Hs.
    + right. exists (String c a), b. split; [done|]. simpl. by rewrite Hc, Ha.
Qed.

Lemma header_cases (h : string) :
  spaceless h = true ∨ ∃ t, carries h t.
Proof.
  destruct (first_space h) as [Hh|(scheme & rest & -> & Hs)]; [by left|].
  right. destruct (first_space rest) as [Hr|(t & more & -> & Ht)].
  - exists rest. by constructor.
  - exists t. by constructor.
Qed.

Lemma bearer_carries (h t : string) : carries h t → bearer (Some h) = Some t.
Proof.
  intros [scheme t' Hs Ht|scheme t' rest Hs Ht].
  - by apply bearer_word_token.
  - by rewrite bearer_word, split_word.
Qed.

Lemma bearer_spaceless (h : string) :
  spaceless h = true → bearer (Some h) = None ∨ bearer (Some h) = Some "".
Proof.
  intros Hh. unfold bearer. destruct (String.eqb h ""); [by right|].
  left. by rewrite split_spaceless.
Qed.

Lemma bearer_no_token (req : Request) :
  bearer (authorization req) = None ∨ bearer (authorization req) = Some ""
  ↔ no_token req.
Proof.
  unfold no_token. destruct (authorization req) as [h|]; [|naive_solver].
  split.
  - intros Hb. right. exists h. split; [done|].
    destruct (header_cases h) as [Hh|[t Ht]]; [by left|right].
    rewrite (bearer_carries _ _ Ht) in Hb. by destruct Hb as [[=]|[= ->]].
  - intros [[=]|(h' & [= <-] & [Hh|Hc])].
    + by apply bearer_spaceless.
    + right. by apply bearer_carries.
Qed.

Lemma bearer_presents (req : Request) (t : string) :
  bearer (authorization req) = Some t ∧ t ≠ "" ↔ presents req t.
Proof.
  unfold presents. split.
  - intros [Hb Hne]. destruct (authorization req) as [h|]; [|done].
    exists h. split; [done|]. split; [|done].
    destruct (header_cases h) as [Hh|[t' Ht']].
    + destruct (bearer_spaceless h Hh) as [Hn|Hn]; rewrite Hn in Hb;
        naive_solver.
    + rewrite (bearer_carries _ _ Ht') in Hb. by injection Hb as ->.
  - intros (h & -> & Hc & Hne). split; [by apply bearer_carries|done].
Qed.

Section Gate.
Context `{Crypto}.

Lemma authMiddleware_cases (requiredRole : string) (env : Env) (req : Request) :
  let token := bearer (authorization req) in
  let verdict := authMiddleware requiredRole env req in
  (verdict = Respond unauthorized ↔ token = None ∨ token = Some "")
  ∧ (verdict = Respond bad_token ↔
       ∃ t e, (token = Some t ∧ t ≠ "")
              ∧ jwt_verify t (secret env) (now env) = inl e)
  ∧ (verdict = Respond forbidden ↔
       ∃ t claims, (token = Some t ∧ t ≠ "")
              ∧ jwt_verify t (secret env) (now env) = inr claims
              ∧ requiredRole = "Administrator"
              ∧ prop claims "role" ≠ JStr "Administrator")
  ∧ (∀ req', verdict = Next req' ↔
       ∃ t claims, (token = Some t ∧ t ≠ "")
              ∧ jwt_verify t (secret env) (now env) = inr claims
              ∧ ¬ (requiredRole = "Administrator"
                   ∧ prop claims "role" ≠ JStr "Administrator")
              ∧ req' = set_user req claims).
Proof.
  intros token verdict. subst verdict. unfold authMiddleware.
  fold token. clearbody token.
  destruct token as [[|c t]|].
  - repeat split; naive_solver.
  - destruct (jwt_verify (String c t) (secret env) (now env)) as [e|claims] eqn:Hv.
    + repeat split; try naive_solver;
        intros (t0 & x & [[= <-] Hne] & Hrest); rewrite Hv in Hrest;
        naive_solver.
    + destruct (String.eqb requiredRole "Administrator") eqn:Hrole;
        [apply String.eqb_eq in Hrole | apply String.eqb_neq in Hrole];
        destruct (is_str (prop claims "role") "Administrator") eqn:Hadm;
        [apply is_str_spec in Hadm | apply is_str_false in Hadm
        | apply is_str_spec in Hadm | apply is_str_false in Hadm];
        simpl; repeat split; try naive_solver;
        intros (t0 & x & [[= <-] Hne] & Hrest); rewrite Hv in Hrest;
        naive_solver.
  - repeat split; naive_solver.
Qed.

Lemma set_user_spec (req req' : Request) (claims : gmap string JValue) :
  req' = set_user req claims
  ↔ user req' = Some claims ∧ authorization req' = authorization req
    ∧ params req' = params req ∧ body req' = body req.
Proof.
  split; [by intros ->|]. destruct req'. simpl. by intros (-> & -> & -> & ->).
Qed.

(** C1.  The gate has four outcomes, decided in this order.  When the
    request presents no token (no Authorization header, a header without a
    space, or nothing between the first space and the next one or the end)
    it answers 401; when the token it presents, the second word of the
    header, does not verify under the configured key (bad signature,
    malformed, expired) it answers 400; when that token verifies but its
    role claim is not Administrator under a gate that requires Administrator
    it answers 403; otherwise it passes the request on with the decoded
    claims attached as its user, header, parameters and body as they were.
    Each outcome occurs exactly under its condition.  Whenever the gate
    answers, the handler behind it is not run: the store is untouched and
    the answer is the gate's; when it passes, the handler runs on the
    request with the claims.  The key is the configured secret, or the fixed
    default when none (or the empty string) is configured. *)
Theorem authMiddleware_outcomes (requiredRole : string) (env : Env) (req : Request) :
  let verdict := authMiddleware requiredRole env req in
  let verified t := jwt_verify t (secret env) (now env) in
  (verdict = Respond unauthorized ↔ no_token req)
  ∧ (verdict = Respond bad_token ↔
       ∃ t e, presents req t ∧ verified t = inl e)
  ∧ (verdict = Respond forbidden ↔
       ∃ t claims, presents req t ∧ verified t = inr claims
              ∧ requiredRole = "Administrator"
              ∧ prop claims "role" ≠ JStr "Administrator")
  ∧ (∀ req', verdict = Next req' ↔
       ∃ t claims, presents req t ∧ verified t = inr claims
              ∧ ¬ (requiredRole = "Administrator"
                   ∧ prop claims "role" ≠ JStr "Administrator")
              ∧ user req' = Some claims
              ∧ authorization req' = authorization req
              ∧ params req' = params req ∧ body req' = body req)
  ∧ (∀ (h : Handler) (st : Store) (r : Response),
       verdict = Respond r →
       gated (authMiddleware requiredRole) h env req st = (st, r))
  ∧ (∀ (h : Handler) (st : Store) (req' : Request),
       verdict = Next req' →
       gated (authMiddleware requiredRole) h env req st = h env req' st)
  ∧ (∀ k, JWT_SECRET env = Some k → k ≠ "" → secret env = k)
  ∧ (JWT_SECRET env = None ∨ JWT_SECRET env = Some "" →
     secret env = "a_very_secure_default_secret").
Proof.
  intros verdict verified. subst verdict verified.
  destruct (authMiddleware_cases requiredRole env req) as (H401 & H400 & H403 & Hnext).
  cbv zeta in *.
  split; [by rewrite H401, bearer_no_token|].
  split; [rewrite H400; by setoid_rewrite bearer_presents|].
  split; [rewrite H403; by setoid_rewrite bearer_presents|].
  split.
  { intros req'. rewrite Hnext. setoid_rewrite bearer_presents.
    by setoid_rewrite set_user_spec. }
  split; [intros h st r Hr; unfold gated; by rewrite Hr|].
  split; [intros h st req' Hr; unfold gated; by rewrite Hr|].
  unfold secret. split.
  - intros k -> Hk. apply String.eqb_neq in Hk. by rewrite Hk.
  - by intros [->| ->].
Qed.

End Gate.

(** ** The public list *)

#[global] Instance created_desc_trans : Transitive created_desc.
Proof.
  intros a b c. unfold created_desc.
  destruct (createdAt a), (createdAt b), (createdAt c); simpl; try tauto; lia.
Qed.

#[global] Instance created_desc_total : Total created_desc.
Proof.
  intros a b. unfold created_desc.
  destruct (createdAt a), (createdAt b); simpl; try tauto; lia.
Qed.

Lemma find_sorted_spec `{Mongoose} (m : Model) (f : Filter) (st : Store) :
  find_sorted m f st ≡ₚ List.filter (matches f) (st m)
  ∧ StronglySorted created_desc (find_sorted m f st).
Proof.
  unfold find_sorted, sort_createdAt_desc. split.
  - apply merge_sort_Permutation.
  - apply (StronglySorted_merge_sort created_desc).
Qed.

Section PublicList.
Context `{Mongoose}.

(** C2.  For every resource and every store, the public list answers 200
    with exactly the documents of the collection whose published flag is
    true (each as often as it is stored, whatever else the collection
    holds), in descending order of creation time, and leaves the store as
    it is. *)
Theorem getPublic_published_sorted (m : Model) (env : Env) (req : Request)
    (st : Store) :
  ∃ items,
    getPublic (createCrudController m) env req st
      = (st, {| status := 200; json := RDocs items |})
    ∧ items ≡ₚ List.filter is_published (st m)
    ∧ (∀ d, d ∈ items ↔ d ∈ st m ∧ fields d !! "published" = Some (VBool true))
    ∧ StronglySorted created_desc items.
Proof.
  exists (find_sorted m (FEq "published" (VBool true)) st).
  destruct (find_sorted_spec m (FEq "published" (VBool true)) st) as [Hp Hs].
  split; [reflexivity|]. split; [exact Hp|]. split; [|exact Hs].
  intros d. rewrite Hp. rewrite !list_elem_of_In, filter_In. simpl.
  rewrite bool_decide_eq_true. reflexivity.
Qed.

End PublicList.

(** ** Reading a singleton or a keyed section that does not exist *)

Lemma findOne_None `{Mongoose} (m : Model) (f : Filter) (st : Store) :
  (∀ d, d ∈ st m → matches f d = false) → findOne m f st = None.
Proof.
  unfold findOne. induction (st m) as [|d l IH]; intros Hno; [reflexivity|].
  simpl. rewrite (Hno d) by (left). apply IH.
  intros d' Hd'. apply Hno. by right.
Qed.

Lemma matches_FEq_false (k : string) (v : Value) (d : Doc) :
  fields d !! k ≠ Some v → matches (FEq k v) d = false.
Proof. intros Hne. simpl. by apply bool_decide_eq_false. Qed.

Section MissingRecord.
Context `{Crypto} `{Mongoose} `{Runtime}.

(** C5.  Reading a singleton resource (personal-info, skills) in a store
    without a singleton record, and reading a keyed section under a key no
    record carries, answers 200 with the empty object and leaves the store
    alone: for the controller operation over any model, for the section
    handler, and for the three public GET routes. *)
Theorem get_missing_is_empty (env : Env) (req : Request) (st : Store) :
  (∀ m, (∀ d, d ∈ st m → fields d !! "singleton" ≠ Some (VStr "main")) →
        getSingleton (createCrudController m) env req st = (st, ok_empty))
  ∧ ((∀ d, d ∈ st SingleSection →
           fields d !! "sectionId" ≠ Some (VStr (param req "sectionId"))) →
     getSection env req st = (st, ok_empty))
  ∧ (∀ key, key ≠ "" →
        (∀ d, d ∈ st SingleSection → fields d !! "sectionId" ≠ Some (VStr key)) →
        serve GET "sections" [key] env req st = (st, ok_empty))
  ∧ ((∀ d, d ∈ st PersonalInfo → fields d !! "singleton" ≠ Some (VStr "main")) →
     serve GET "personal-info" [] env req st = (st, ok_empty))
  ∧ ((∀ d, d ∈ st Skills → fields d !! "singleton" ≠ Some (VStr "main")) →
     serve GET "skills" [] env req st = (st, ok_empty)).
Proof.
  assert (Hsingle : ∀ m r,
    (∀ d, d ∈ st m → fields d !! "singleton" ≠ Some (VStr "main")) →
    getSingleton (createCrudController m) env r st = (st, ok_empty)).
  { intros m r Hno. simpl. rewrite findOne_None; [reflexivity|].
    intros d Hd. apply matches_FEq_false. by apply Hno. }
  assert (Hsection : ∀ r,
    (∀ d, d ∈ st SingleSection →
          fields d !! "sectionId" ≠ Some (VStr (param r "sectionId"))) →
    getSection env r st = (st, ok_empty)).
  { intros r Hno. unfold getSection. rewrite findOne_None; [reflexivity|].
    intros d Hd. apply matches_FEq_false. by apply Hno. }
  split; [intros m; apply Hsingle|]. split; [apply Hsection|].
  split; [|split].
  - intros key Hkey Hno. unfold serve. simpl.
    destruct (String.eqb key "") eqn:He; [by apply String.eqb_eq in He|].
    simpl. apply Hsection. unfold param. simpl.
    by rewrite lookup_insert_eq.
  - intros Hno. unfold serve. simpl. by apply Hsingle.
  - intros Hno. unfold serve. simpl. by apply Hsingle.
Qed.

End MissingRecord.

(** ** Route wiring of the content resources *)

Lemma gate_no_token `{Crypto} (requiredRole : string) (env : Env) (req : Request) :
  bearer (authorization req) = None ∨ bearer (authorization req) = Some "" →
  authMiddleware requiredRole env req = Respond unauthorized.
Proof. unfold authMiddleware. by intros [-> | ->]. Qed.

Lemma gate_verified `{Crypto} (requiredRole : string) (env : Env) (req : Request)
    (t : string) (claims : gmap string JValue) :
  bearer (authorization req) = Some t → t ≠ "" →
  jwt_verify t (secret env) (now env) = inr claims →
  authMiddleware requiredRole env req =
    if String.eqb requiredRole "Administrator"
       && negb (is_str (prop claims "role") "Administrator")
    then Respond forbidden
    else Next (set_user req claims).
Proof.
  unfold authMiddleware. intros -> Hne Hv.
  destruct t as [|c t]; [done|]. by rewrite Hv.
Qed.

Section Wiring.
Context `{Crypto} `{Mongoose} `{Runtime}.

(** C8.  For each content resource the router runs: the public list with no
    gate; the admin list, create and update behind the gate for any
    authenticated role; delete behind the gate that requires Administrator.
    Hence a POST without a token is answered 401, a DELETE with a verified
    token of another role than Administrator is answered 403 (both without
    touching the store), and a verified token of any role reaches the admin
    list, create and update handlers. *)
Theorem crud_route_gates (name : string) (m : Model) (env : Env)
    (req : Request) (st : Store) (id : string) :
  (name, m) ∈ contentResources → id ≠ "" →
  let controller := createCrudController m in
  let bare := with_params req ∅ in
  let byId := with_params req {[ "id" := id ]} in
  serve GET name [] env req st = getPublic controller env bare st
  ∧ serve GET name ["all"] env req st
    = gated (authMiddleware "Editor") (getAllAdmin controller) env bare st
  ∧ serve POST name [] env req st
    = gated (authMiddleware "Editor") (create controller) env bare st
  ∧ serve PUT name [id] env req st
    = gated (authMiddleware "Editor") (update controller) env byId st
  ∧ serve DELETE name [id] env req st
    = gated (authMiddleware "Administrator") (delete_ controller) env byId st
  ∧ (bearer (authorization req) = None ∨ bearer (authorization req) = Some "" →
     serve POST name [] env req st = (st, unauthorized))
  ∧ (∀ t claims,
       bearer (authorization req) = Some t → t ≠ "" →
       jwt_verify t (secret env) (now env) = inr claims →
       (prop claims "role" ≠ JStr "Administrator" →
        serve DELETE name [id] env req st = (st, forbidden))
       ∧ (prop claims "role" = JStr "Administrator" →
          serve DELETE name [id] env req st
          = delete_ controller env (set_user byId claims) st)
       ∧ serve GET name ["all"] env req st
         = getAllAdmin controller env (set_user bare claims) st
       ∧ serve POST name [] env req st
         = create controller env (set_user bare claims) st
       ∧ serve PUT name [id] env req st
         = update controller env (set_user byId claims) st).
Proof.
  intros Hin Hid controller bare byId.
  assert (Hwire :
    serve GET name [] env req st = getPublic controller env bare st
    ∧ serve GET name ["all"] env req st
      = gated (authMiddleware "Editor") (getAllAdmin controller) env bare st
    ∧ serve POST name [] env req st
      = gated (authMiddleware "Editor") (create controller) env bare st
    ∧ serve PUT name [id] env req st
      = gated (authMiddleware "Editor") (update controller) env byId st
    ∧ serve DELETE name [id] env req st
      = gated (authMiddleware "Administrator") (delete_ controller) env byId st).
  { unfold contentResources in Hin.
    apply String.eqb_neq in Hid.
    repeat (apply elem_of_cons in Hin as [[= -> ->] | Hin]);
      [| | | | by apply elem_of_nil in Hin];
      unfold serve, app, dispatch, route, run_route; simpl; rewrite Hid;
      repeat split; reflexivity. }
  destruct Hwire as (Hget & Hall & Hpost & Hput & Hdel).
  repeat (split; [assumption|]). split.
  - intros Hno. rewrite Hpost. unfold gated.
    by rewrite (gate_no_token "Editor" env bare Hno).
  - intros t claims Ht Hne Hv.
    rewrite Hall, Hpost, Hput, Hdel. unfold gated.
    rewrite (gate_verified "Editor" env bare t claims Ht Hne Hv).
    rewrite (gate_verified "Editor" env byId t claims Ht Hne Hv).
    rewrite (gate_verified "Administrator" env byId t claims Ht Hne Hv).
    simpl. repeat split; try reflexivity.
    + intros Hrole. apply is_str_false in Hrole. by rewrite Hrole.
    + intros Hrole. apply is_str_spec in Hrole. by rewrite Hrole.
Qed.

End Wiring.

(** ** Updates: what a plain update object does to a document *)

Lemma schema_names_NoDup (m : Model) : NoDup (map p_name (s_paths (schema m))).
Proof. destruct m; apply (bool_decide_unpack _); vm_compute; exact I. Qed.

Lemma split_first_first (P : Doc → bool) (before : list Doc) (d : Doc)
    (after : list Doc) :
  (∀ d0, d0 ∈ before → P d0 = false) → P d = true →
  split_first P (before ++ d :: after) = Some (before, d, after).
Proof.
  induction before as [|x before IH]; intros Hb Hd; simpl.
  - by rewrite Hd.
  - rewrite (Hb x) by left. rewrite IH; [done| |done].
    intros d0 Hd0. apply Hb. by right.
Qed.

Lemma split_first_none (P : Doc → bool) (l : list Doc) :
  (∀ d, d ∈ l → P d = false) → split_first P l = None.
Proof.
  induction l as [|x l IH]; intros Hl; simpl; [done|].
  rewrite (Hl x) by left. rewrite IH; [done|].
  intros d Hd. apply Hl. by right.
Qed.

Lemma split_first_Some (P : Doc → bool) (l before after : list Doc) (d : Doc) :
  split_first P l = Some (before, d, after) →
  l = before ++ d :: after ∧ P d = true ∧ (∀ d0, d0 ∈ before → P d0 = false).
Proof.
  revert before. induction l as [|x l IH]; intros before Hs; simpl in Hs;
    [done|].
  destruct (P x) eqn:Hx.
  - inversion Hs; subst. repeat split; [done|]. by intros d0 ?%elem_of_nil.
  - destruct (split_first P l) as [[[b h] a]|]; [|done].
    inversion Hs; subst; clear Hs.
    destruct (IH b eq_refl) as (-> & Hd & Hb). repeat split; [done|].
    intros d0 [->|Hd0]%elem_of_cons; [done|by apply Hb].
Qed.

Lemma split_first_None (P : Doc → bool) (l : list Doc) :
  split_first P l = None → ∀ d, d ∈ l → P d = false.
Proof.
  induction l as [|x l IH]; intros Hs d Hd; simpl in Hs.
  - by apply elem_of_nil in Hd.
  - destruct (P x) eqn:Hx; [done|].
    destruct (split_first P l) as [[[b h] a]|]; [done|].
    apply elem_of_cons in Hd as [->|Hd]; [done|by apply IH].
Qed.

Section UpdateFacts.
Context `{Mongoose}.

Lemma cast_sets_absent (ps : list Path) (upd : gmap string JValue)
    (sets : gmap string Value) (k : string) :
  cast_sets ps upd = inr sets → upd !! k = None → sets !! k = None.
Proof.
  revert sets. induction ps as [|p ps IH]; intros sets Hc Hk; simpl in Hc.
  - by inversion Hc.
  - destruct (set_of_path p upd) as [e|v] eqn:Hp; simpl in Hc; [done|].
    destruct (cast_sets ps upd) as [e|rest]; simpl in Hc; [done|].
    inversion Hc; subst; clear Hc.
    destruct v as [v'|]; [|by apply IH].
    destruct (decide (p_name p = k)) as [<-|Hne].
    + unfold set_of_path in Hp. by rewrite Hk in Hp.
    + rewrite lookup_insert_ne by done. by apply IH.
Qed.

Lemma cast_sets_present (ps : list Path) (upd : gmap string JValue)
    (sets : gmap string Value) (p : Path) (v : JValue) :
  cast_sets ps upd = inr sets → NoDup (map p_name ps) → p ∈ ps →
  upd !! p_name p = Some v → v ≠ JUndefined →
  sets !! p_name p = cast p v.
Proof.
  revert sets. induction ps as [|q ps IH]; intros sets Hc Hnd Hin Hv Hu;
    simpl in Hc.
  - by apply elem_of_nil in Hin.
  - destruct (set_of_path q upd) as [e|w] eqn:Hq; simpl in Hc; [done|].
    destruct (cast_sets ps upd) as [e|rest] eqn:Hrest; simpl in Hc; [done|].
    inversion Hc; subst; clear Hc.
    apply NoDup_cons in Hnd as [Hnotin Hnd].
    apply elem_of_cons in Hin as [->|Hin].
    + unfold set_of_path in Hq. rewrite Hv in Hq.
      destruct v; try done;
        (destruct (cast q _) as [v'|] eqn:Hcast; [|done];
         inversion Hq; subst; by rewrite lookup_insert_eq).
    + assert (p_name q ≠ p_name p) as Hne.
      { intros Heq. apply Hnotin. rewrite Heq.
        apply list_elem_of_In, in_map, list_elem_of_In, Hin. }
      destruct w; [rewrite lookup_insert_ne by done|]; by apply IH.
Qed.


Lemma cast_sets_fail (ps : list Path) (upd : gmap string JValue) (p : Path)
    (v : JValue) :
  p ∈ ps → upd !! p_name p = Some v → v ≠ JUndefined → cast p v = None →
  ∃ e, cast_sets ps upd = inl e.
Proof.
  induction ps as [|q ps IH]; intros Hin Hv Hu Hcast.
  - by apply elem_of_nil in Hin.
  - simpl. apply elem_of_cons in Hin as [<-|Hin].
    + unfold set_of_path. rewrite Hv.
      destruct v; try done; rewrite Hcast; by eexists.
    + destruct (set_of_path q upd); simpl; [by eexists|].
      destruct (IH Hin Hv Hu Hcast) as [e ->]. by eexists.
Qed.

Lemma castUpdate_plain (sch : Schema) (upd : gmap string JValue)
    (sets : gmap string Value) :
  plain upd = true → cast_sets (s_paths sch) upd = inr sets →
  castUpdate sch upd = inr (λ fs, sets ∪ fs).
Proof.
  intros Hplain Hsets. unfold castUpdate. rewrite Hsets. simpl.
  destruct (decide _) as [|Hne]; [done|]. destruct Hne.
  apply map_empty_filter_2. apply bool_decide_eq_true in Hplain.
  intros k v Hk. simpl. rewrite (Hplain k v Hk). done.
Qed.

Lemma castUpdate_fail (sch : Schema) (upd : gmap string JValue) (p : Path)
    (v : JValue) :
  p ∈ s_paths sch → upd !! p_name p = Some v → v ≠ JUndefined →
  cast p v = None → ∃ e, castUpdate sch upd = inl e.
Proof.
  intros Hin Hv Hu Hcast. unfold castUpdate.
  destruct (cast_sets_fail _ _ _ _ Hin Hv Hu Hcast) as [e ->]. by eexists.
Qed.

End UpdateFacts.

Lemma content_no_unique (name : string) (m : Model) :
  (name, m) ∈ contentResources →
  forallb (λ p, negb (p_unique p)) (s_paths (schema m)) = true.
Proof.
  unfold contentResources. intros Hin.
  repeat (apply elem_of_cons in Hin as [[= -> ->] | Hin]); try reflexivity.
  by apply elem_of_nil in Hin.
Qed.

Lemma duplicate_on_update_none (sch : Schema) (others : list Doc) (old d : Doc) :
  forallb (λ p, negb (p_unique p)) (s_paths sch) = true →
  duplicate_on_update sch others old d = None.
Proof.
  unfold duplicate_on_update. induction (s_paths sch) as [|p ps IH]; simpl;
    [done|].
  intros [Hp Hps]%andb_prop. apply negb_true_iff in Hp. rewrite Hp. simpl.
  by apply IH.
Qed.

Lemma cast_sets_dom `{Mongoose} (ps : list Path) (upd : gmap string JValue)
    (sets : gmap string Value) (k : string) :
  cast_sets ps upd = inr sets → k ∉ map p_name ps → sets !! k = None.
Proof.
  revert sets. induction ps as [|p ps IH]; intros sets Hc Hk; simpl in Hc.
  - by inversion Hc.
  - destruct (set_of_path p upd) as [e|v]; simpl in Hc; [done|].
    destruct (cast_sets ps upd) as [e|rest]; simpl in Hc; [done|].
    inversion Hc; subst; clear Hc. simpl in Hk.
    apply not_elem_of_cons in Hk as [Hne Hk].
    destruct v; [rewrite lookup_insert_ne by done|]; by apply IH.
Qed.

Lemma set_collection_same (m : Model) (l : list Doc) (st : Store) :
  set_collection m l st m = l.
Proof. unfold set_collection. by rewrite decide_True. Qed.

Lemma set_collection_other (m m' : Model) (l : list Doc) (st : Store) :
  m' ≠ m → set_collection m l st m' = st m'.
Proof. intros Hne. unfold set_collection. by rewrite decide_False. Qed.

Section GenericUpdate.
Context `{Mongoose}.

Lemma set_of_id_none (upd : gmap string JValue) :
  upd !! "_id" = None → set_of_id upd = inr None.
Proof. intros Hk. unfold set_of_id. by rewrite Hk. Qed.





End GenericUpdate.

(** ** Creation defaults *)

Lemma find_sorted_elem `{Mongoose} (m : Model) (f : Filter) (st : Store) (d : Doc) :
  d ∈ find_sorted m f st ↔ d ∈ st m ∧ matches f d = true.
Proof.
  destruct (find_sorted_spec m f st) as [Hp _]. rewrite Hp.
  by rewrite !list_elem_of_In, filter_In.
Qed.

Section Creation.
Context `{Mongoose}.

Lemma construct_default (ps : list Path) (body : gmap string JValue)
    (fs : gmap string Value) (p : Path) (v : Value) :
  construct ps body = inr fs → NoDup (map p_name ps) → p ∈ ps →
  body !! p_name p = None → p_default p = Some v →
  fs !! p_name p = Some v.
Proof.
  revert fs. induction ps as [|q ps IH]; intros fs Hc Hnd Hin Hb Hdef;
    simpl in Hc.
  - by apply elem_of_nil in Hin.
  - destruct (construct_path q body) as [e|w] eqn:Hq; simpl in Hc; [done|].
    destruct (validate_path q w); [done|].
    destruct (construct ps body) as [e|rest] eqn:Hrest; simpl in Hc; [done|].
    inversion Hc; subst; clear Hc.
    apply NoDup_cons in Hnd as [Hnotin Hnd].
    apply elem_of_cons in Hin as [->|Hin].
    + unfold construct_path, prop in Hq. rewrite Hb in Hq. simpl in Hq.
      inversion Hq; subst. rewrite Hdef. by rewrite lookup_insert_eq.
    + assert (p_name q ≠ p_name p) as Hne.
      { intros Heq. apply Hnotin. rewrite Heq.
        apply list_elem_of_In, in_map, list_elem_of_In, Hin. }
      destruct w; [rewrite lookup_insert_ne by done|]; by apply IH.
Qed.

Lemma save_inr (m : Model) (body : gmap string JValue) (env : Env) (st st' : Store)
    (d : Doc) :
  save m body env st = inr (st', d) →
  construct (s_paths (schema m)) body = inr (fields d)
  ∧ construct_id body env = inr (_id d)
  ∧ createdAt d = (if s_timestamps (schema m) then Some (now env) else None)
  ∧ updatedAt d = createdAt d
  ∧ st' = set_collection m (st m ++ [d]) st
  ∧ (∀ d0, d0 ∈ st m → _id d0 ≠ _id d).
Proof.
  unfold save. destruct (construct _ body) as [e|fs]; simpl; [done|].
  destruct (construct_id body env) as [e|i]; simpl; [done|].
  unfold duplicate_on_insert.
  destruct (existsb _ (st m)) eqn:Hex; [done|].
  destruct (List.find _ _); [done|].
  intros [= <- <-]. repeat split.
  intros d0 Hd0 Heq.
  assert (existsb (λ d', bool_decide (_id d' = i)) (st m) = true) as Hyes.
  { apply existsb_exists. exists d0. split; [by apply list_elem_of_In|].
    by apply bool_decide_eq_true. }
  simpl in Hex. congruence.
Qed.

Lemma construct_id_absent (body : gmap string JValue) (env : Env) :
  body !! "_id" = None → construct_id body env = inr (oid env).
Proof. intros Hk. unfold construct_id, prop. by rewrite Hk. Qed.

(** A generic update with a plain body that does not name the field [k]
    leaves [k] as it was in every document of the collection, and adds no
    document. *)
Lemma update_keeps_field (name : string) (m : Model) (env : Env) (req : Request)
    (st : Store) (k : string) :
  (name, m) ∈ contentResources → plain (body req) = true →
  body req !! k = None →
  ∀ d', d' ∈ (update (createCrudController m) env req st).1 m →
        ∃ d, d ∈ st m ∧ _id d = _id d' ∧ fields d' !! k = fields d !! k.
Proof.
  intros Hres Hplain Hk d'. cbn [update createCrudController].
  unfold findByIdAndUpdate.
  destruct (castObjectId (param req "id")) as [i|]; [|by exists d'].
  destruct (set_of_id (body req)) as [e|newId]; [by exists d'|].
  cbn [bind_err].
  destruct (cast_sets (s_paths (schema m)) (body req)) as [e|sets] eqn:Hsets.
  { unfold castUpdate. rewrite Hsets. by exists d'. }
  rewrite (castUpdate_plain _ _ _ Hplain Hsets). cbn [bind_err].
  destruct (split_first _ (st m)) as [[[before old] after]|] eqn:Hsplit;
    [|by exists d'].
  destruct (check_id newId old); [by exists d'|]. cbv zeta.
  rewrite duplicate_on_update_none by (by eapply content_no_unique).
  apply split_first_Some in Hsplit as (Hst & _ & _).
  cbn [fst]. unfold set_collection. rewrite decide_True by done.
  rewrite Hst. intros Hin.
  apply elem_of_app in Hin as [Hin|[->|Hin]%elem_of_cons].
  - exists d'. split; [|done]. apply elem_of_app. by left.
  - exists old. split; [apply elem_of_app; right; by left|].
    split; [done|]. cbn [fields updated]. apply lookup_union_r.
    by eapply cast_sets_absent.
  - exists d'. split; [|done]. apply elem_of_app. right. by right.
Qed.

(** C10.  For each content resource, a create request whose body has no
    published field and that is accepted (201) stores the new record with
    published = false; the record is not in the public list right after; it
    is in no public list of any later store in which the record of that
    identifier has not been given published = true; and an update with a
    plain body that does not name the published field leaves it out of the
    public list. *)
Theorem create_defaults_unpublished (name : string) (m : Model) (env : Env)
    (req : Request) (st st' : Store) (resp : Response) :
  (name, m) ∈ contentResources →
  body req !! "published" = None →
  create (createCrudController m) env req st = (st', resp) →
  status resp = 201 →
  ∃ d, json resp = RDoc d
    ∧ st' m = st m ++ [d]
    ∧ fields d !! "published" = Some (VBool false)
    ∧ (∀ env' req' items,
         json (getPublic (createCrudController m) env' req' st').2 = RDocs items →
         ∀ d', d' ∈ items → _id d' ≠ _id d)
    ∧ (∀ st'' env' req' items,
         (∀ d', d' ∈ st'' m → _id d' = _id d →
                fields d' !! "published" ≠ Some (VBool true)) →
         json (getPublic (createCrudController m) env' req' st'').2 = RDocs items →
         ∀ d', d' ∈ items → _id d' ≠ _id d)
    ∧ (∀ envU reqU env' req' items,
         plain (body reqU) = true → body reqU !! "published" = None →
         json (getPublic (createCrudController m) env' req'
                 (update (createCrudController m) envU reqU st').1).2
           = RDocs items →
         ∀ d', d' ∈ items → _id d' ≠ _id d).
Proof.
  intros Hres Hbody Hcreate Hstatus. cbn [create createCrudController] in Hcreate.
  destruct (save m (body req) env st) as [e|[st1 d]] eqn:Hsave;
    inversion Hcreate; subst; clear Hcreate; [done|].
  apply save_inr in Hsave as (Hfs & _ & _ & _ & -> & Hfresh).
  assert (set_collection m (st m ++ [d]) st m = st m ++ [d]) as Hcoll
    by (unfold set_collection; by rewrite decide_True).
  assert (fields d !! "published" = Some (VBool false)) as Hpub.
  { unfold contentResources in Hres.
    repeat (apply elem_of_cons in Hres as [[= -> ->] | Hres]);
      [| | | | by apply elem_of_nil in Hres];
      apply (construct_default _ _ _
               (default_ (VBool false) (path "published" TBoolean))
               _ Hfs (schema_names_NoDup _)); try done;
      simpl; repeat (first [by left | right]). }
  assert (Hlater : ∀ st'' env' req' items,
    (∀ d', d' ∈ st'' m → _id d' = _id d →
           fields d' !! "published" ≠ Some (VBool true)) →
    json (getPublic (createCrudController m) env' req' st'').2 = RDocs items →
    ∀ d', d' ∈ items → _id d' ≠ _id d).
  { intros st'' env' req' items Hnot [= <-] d' Hd' Heq.
    apply find_sorted_elem in Hd' as [Hd' Hm]. simpl in Hm.
    apply bool_decide_eq_true in Hm. by apply (Hnot d'). }
  assert (Hnow : ∀ d', d' ∈ set_collection m (st m ++ [d]) st m →
            _id d' = _id d → fields d' !! "published" ≠ Some (VBool true)).
  { intros d' Hd' Heq. rewrite Hcoll in Hd'.
    apply elem_of_app in Hd' as [Hd'|Hd'].
    - exfalso. by apply (Hfresh d' Hd').
    - apply list_elem_of_singleton in Hd' as ->. by rewrite Hpub. }
  exists d. split; [done|]. split; [done|]. split; [done|].
  split; [|split; [done|]].
  - intros env' req' items. by apply Hlater.
  - intros envU reqU env' req' items Hplain Hnopub. apply Hlater.
    intros d' Hd' Heq.
    destruct (update_keeps_field name m envU reqU _ "published"
                Hres Hplain Hnopub d' Hd') as (d0 & Hd0 & Hid0 & ->).
    apply Hnow; [done|congruence].
Qed.

End Creation.

(** ** Upserts *)

Section Upsert.
Context `{Mongoose}.

(** What an accepted upsert did: it rewrote the first document that matches
    the filter, or, when none matches, appended a new one built from the
    filter's equality and the update. *)
Lemma upsert_inr (m : Model) (k v : string) (upd : gmap string JValue)
    (sdi : option bool) (env : Env) (st st' : Store) (d : Doc)
    (newId : option string) (g : gmap string Value → gmap string Value) :
  set_of_id upd = inr newId →
  castUpdate (schema m) upd = inr g →
  findOneAndUpdate_upsert m k v upd sdi env st = inr (st', d) →
  (∃ before old after,
      st m = before ++ old :: after
      ∧ fields old !! k = Some (VStr v)
      ∧ (∀ d0, d0 ∈ before → fields d0 !! k ≠ Some (VStr v))
      ∧ check_id newId old = None
      ∧ d = updated (schema m) g env old
      ∧ st' = set_collection m (before ++ d :: after) st)
  ∨ ((∀ d0, d0 ∈ st m → fields d0 !! k ≠ Some (VStr v))
     ∧ (∀ d0, d0 ∈ st m → _id d0 ≠ _id d)
     ∧ _id d = default (oid env) newId
     ∧ fields d = (if default setDefaultsOnInsert_default sdi
                   then with_defaults (s_paths (schema m)) (g {[ k := VStr v ]})
                   else g {[ k := VStr v ]})
     ∧ st' = set_collection m (st m ++ [d]) st).
Proof.
  intros Hid Hg. unfold findOneAndUpdate_upsert. rewrite Hid, Hg.
  cbn [bind_err].
  destruct (split_first _ (st m)) as [[[before old] after]|] eqn:Hsplit.
  - destruct (check_id newId old) eqn:Hcheck; [done|]. cbv zeta.
    destruct (duplicate_on_update _ _ _ _); [done|]. intros [= <- <-].
    apply split_first_Some in Hsplit as (Hst & Hold & Hbefore).
    left. exists before, old, after. repeat split; try done.
    + simpl in Hold. by apply bool_decide_eq_true in Hold.
    + intros d0 Hd0. apply Hbefore in Hd0. simpl in Hd0.
      by apply bool_decide_eq_false in Hd0.
  - unfold duplicate_on_insert.
    destruct (existsb _ (st m)) eqn:Hex; [done|].
    destruct (List.find _ _); [done|]. intros [= <- <-].
    right. repeat split; try done.
    + intros d0 Hd0. eapply split_first_None in Hsplit; [|exact Hd0].
      simpl in Hsplit. by apply bool_decide_eq_false in Hsplit.
    + intros d0 Hd0 Heq.
      assert (existsb (λ d', bool_decide (_id d' = default (oid env) newId))
                (st m) = true) as Hyes.
      { apply existsb_exists. exists d0. split; [by apply list_elem_of_In|].
        by apply bool_decide_eq_true. }
      simpl in Hex. congruence.
Qed.

(** An upsert that is refused leaves the store; one that is accepted went
    through both casts. *)
Lemma upsert_casts (m : Model) (k v : string) (upd : gmap string JValue)
    (sdi : option bool) (env : Env) (st st' : Store) (d : Doc) :
  findOneAndUpdate_upsert m k v upd sdi env st = inr (st', d) →
  ∃ newId g, set_of_id upd = inr newId ∧ castUpdate (schema m) upd = inr g.
Proof.
  unfold findOneAndUpdate_upsert.
  destruct (set_of_id upd) as [e|newId]; [done|].
  destruct (castUpdate (schema m) upd) as [e|g]; [done|].
  intros _. by exists newId, g.
Qed.

End Upsert.

(** ** Keyed sections: what a PUT persists *)

Lemma sectionUpdate_plain (req : Request) : plain (sectionUpdate req) = true.
Proof.
  apply bool_decide_eq_true. unfold sectionUpdate.
  apply map_Forall_insert_2; [done|]. by apply map_Forall_singleton.
Qed.

Section KeyedSection.
Context `{Mongoose}.

Lemma cast_sets_undefined (ps : list Path) (upd : gmap string JValue)
    (sets : gmap string Value) (p : Path) :
  cast_sets ps upd = inr sets → NoDup (map p_name ps) → p ∈ ps →
  upd !! p_name p = Some JUndefined →
  sets !! p_name p = if omitUndefined then None else Some VNull.
Proof.
  revert sets. induction ps as [|q ps IH]; intros sets Hc Hnd Hin Hv;
    simpl in Hc.
  - by apply elem_of_nil in Hin.
  - destruct (set_of_path q upd) as [e|w] eqn:Hq; simpl in Hc; [done|].
    destruct (cast_sets ps upd) as [e|rest] eqn:Hrest; simpl in Hc; [done|].
    inversion Hc; subst; clear Hc.
    apply NoDup_cons in Hnd as [Hnotin Hnd].
    apply elem_of_cons in Hin as [->|Hin].
    + unfold set_of_path in Hq. rewrite Hv in Hq. injection Hq as <-.
      destruct omitUndefined; [|by rewrite lookup_insert_eq].
      eapply cast_sets_dom; [exact Hrest|].
      intros Hin. apply Hnotin. by apply list_elem_of_In.
    + assert (p_name q ≠ p_name p) as Hne.
      { intros Heq. apply Hnotin. rewrite Heq.
        apply list_elem_of_In, in_map, list_elem_of_In, Hin. }
      destruct w; [rewrite lookup_insert_ne by done|]; by apply IH.
Qed.

Lemma sectionUpdate_lookup (req : Request) (k : string) :
  k ∈ ["title"; "description"] →
  sectionUpdate req !! k = Some (prop (body req) k)
  ∧ path k TString ∈ s_paths (schema SingleSection).
Proof.
  intros Hk. unfold sectionUpdate.
  repeat (apply elem_of_cons in Hk as [->|Hk]);
    [| |by apply elem_of_nil in Hk].
  - split; [by simplify_map_eq|]. simpl. right. by left.
  - split; [by simplify_map_eq|]. simpl. right. right. by left.
Qed.

Lemma sectionUpdate_id (req : Request) : set_of_id (sectionUpdate req) = inr None.
Proof. apply set_of_id_none. unfold sectionUpdate. by simplify_map_eq. Qed.

(** C9.  A PUT on a keyed section reads nothing of the body but its title
    and description: two requests for the same key whose bodies agree on
    these two fields have the same effect on the store and the same answer,
    whatever else the bodies hold.  The answer is 200, or 400 with the store
    as it was; it is 400 when the title or the description does not cast to
    a string.  When the request is accepted, the answered record is stored
    under the key of the path, and its title and description are those of
    the body: a string as it is, any other value cast to a string, and a
    field the body lacks either left as it was (on insertion: absent) or
    set to null, as the mapper treats [undefined].  Either the record
    replaces the first record of that key, keeping its identifier and every
    field other than title and description, or no record had the key and
    the new record has no field besides sectionId, title and description.
    The body cannot set sectionId. *)
Theorem putSection_persists_title_description (env : Env) (req : Request)
    (st : Store) :
  let key := param req "sectionId" in
  let out := putSection env req st in
  let given k := prop (body req) k in
  (∀ req', param req' "sectionId" = key →
           prop (body req') "title" = given "title" →
           prop (body req') "description" = given "description" →
           putSection env req' st = out)
  ∧ ((∃ d, out.2 = {| status := 200; json := RDoc d |})
     ∨ (status out.2 = 400 ∧ out.1 = st))
  ∧ (∀ k, k ∈ ["title"; "description"] → given k ≠ JUndefined →
          cast (path k TString) (given k) = None →
          status out.2 = 400 ∧ out.1 = st)
  ∧ (∀ st' d, out = (st', {| status := 200; json := RDoc d |}) →
       fields d !! "sectionId" = Some (VStr key)
       ∧ (∀ k s, k ∈ ["title"; "description"] → given k = JStr s →
                 fields d !! k = Some (VStr s))
       ∧ (∀ k, k ∈ ["title"; "description"] → given k ≠ JUndefined →
               fields d !! k = cast (path k TString) (given k))
       ∧ ((∃ before old after,
              st SingleSection = before ++ old :: after
              ∧ fields old !! "sectionId" = Some (VStr key)
              ∧ (∀ d0, d0 ∈ before → fields d0 !! "sectionId" ≠ Some (VStr key))
              ∧ st' SingleSection = before ++ d :: after
              ∧ _id d = _id old
              ∧ (∀ k, k ∈ ["title"; "description"] → given k = JUndefined →
                      fields d !! k = if omitUndefined then fields old !! k
                                      else Some VNull)
              ∧ (∀ k, k ≠ "title" → k ≠ "description" →
                      fields d !! k = fields old !! k))
          ∨ ((∀ d0, d0 ∈ st SingleSection →
                    fields d0 !! "sectionId" ≠ Some (VStr key))
             ∧ st' SingleSection = st SingleSection ++ [d]
             ∧ _id d = oid env
             ∧ (∀ k, k ∈ ["title"; "description"] → given k = JUndefined →
                     fields d !! k = if omitUndefined then None
                                     else Some VNull)
             ∧ (∀ k, k ≠ "title" → k ≠ "description" → k ≠ "sectionId" →
                     fields d !! k = None)))).
Proof.
  intros key out given. subst key out given. cbv beta.
  split; [|split; [|split]].
  - intros req' Hkey Ht Hd. unfold putSection. by rewrite Hkey, Ht, Hd.
  - unfold putSection. fold (sectionUpdate req).
    destruct (findOneAndUpdate_upsert _ _ _ _ _ _ _) as [e|[st1 d1]];
      [by right|left; by eexists].
  - intros k Hk Hu Hcast.
    destruct (sectionUpdate_lookup req k Hk) as [Hlook Hp].
    destruct (castUpdate_fail (schema SingleSection) (sectionUpdate req)
                (path k TString) (prop (body req) k) Hp Hlook Hu Hcast)
      as [e He].
    unfold putSection. fold (sectionUpdate req).
    unfold findOneAndUpdate_upsert. rewrite sectionUpdate_id, He. done.
  - intros st' d. unfold putSection. fold (sectionUpdate req).
    destruct (findOneAndUpdate_upsert _ _ _ _ _ _ _) as [e|[st1 d1]] eqn:Hup;
      [done|]. intros [= -> ->].
    destruct (cast_sets (s_paths (schema SingleSection)) (sectionUpdate req))
      as [e|sets] eqn:Hsets.
    { unfold findOneAndUpdate_upsert, castUpdate in Hup.
      rewrite sectionUpdate_id, Hsets in Hup. done. }
    pose proof (castUpdate_plain _ _ _ (sectionUpdate_plain req) Hsets) as Hg.
    assert (Hother : ∀ k, k ≠ "title" → k ≠ "description" → sets !! k = None).
    { intros k Ht Hd. eapply cast_sets_absent; [exact Hsets|].
      unfold sectionUpdate. rewrite lookup_insert_ne by done.
      by rewrite lookup_singleton_ne. }
    assert (Hgiven : ∀ k, k ∈ ["title"; "description"] →
              prop (body req) k ≠ JUndefined →
              sets !! k = cast (path k TString) (prop (body req) k)
              ∧ is_Some (sets !! k)).
    { intros k Hk Hu. destruct (sectionUpdate_lookup req k Hk) as [Hlook Hp].
      pose proof (cast_sets_present _ _ _ (path k TString) _ Hsets
                    (schema_names_NoDup SingleSection) Hp Hlook Hu) as Hset.
      split; [done|]. cbn [p_name path] in Hset. rewrite Hset.
      destruct (cast (path k TString) (prop (body req) k)) eqn:Hc; [done|].
      destruct (cast_sets_fail _ _ _ _ Hp Hlook Hu Hc) as [e He].
      by rewrite He in Hsets. }
    assert (Hlacks : ∀ k, k ∈ ["title"; "description"] →
              prop (body req) k = JUndefined →
              sets !! k = if omitUndefined then None else Some VNull).
    { intros k Hk Hu. destruct (sectionUpdate_lookup req k Hk) as [Hlook Hp].
      rewrite Hu in Hlook.
      exact (cast_sets_undefined _ _ _ (path k TString) Hsets
               (schema_names_NoDup SingleSection) Hp Hlook). }
    assert (Hfield : ∀ (fs : gmap string Value) k,
              k ∈ ["title"; "description"] →
              prop (body req) k ≠ JUndefined →
              (sets ∪ fs) !! k = cast (path k TString) (prop (body req) k)).
    { intros fs k Hk Hu. destruct (Hgiven k Hk Hu) as [Heq [x Hx]].
      rewrite <- Heq, Hx. by apply lookup_union_Some_l. }
    assert (Hstring : ∀ (fs : gmap string Value) k s,
              k ∈ ["title"; "description"] →
              prop (body req) k = JStr s →
              (sets ∪ fs) !! k = Some (VStr s)).
    { intros fs k s Hk Hs. rewrite (Hfield fs k Hk) by (by rewrite Hs).
      by rewrite Hs. }
    assert (Hundef : ∀ (fs : gmap string Value) k,
              k ∈ ["title"; "description"] →
              prop (body req) k = JUndefined →
              (sets ∪ fs) !! k = if omitUndefined then fs !! k
                                 else Some VNull).
    { intros fs k Hk Hu. pose proof (Hlacks k Hk Hu) as Hl.
      destruct omitUndefined; [by apply lookup_union_r|].
      by apply lookup_union_Some_l. }
    destruct (upsert_inr _ _ _ _ _ _ _ _ _ _ _ (sectionUpdate_id req) Hg Hup)
      as [(before & old & after & Hst & Hold & Hbefore & _ & -> & ->)
         |(Hno & Hfresh & Hid & Hfs & ->)].
    + cbn [fields updated]. split.
      * rewrite lookup_union_r by (by apply Hother). done.
      * split; [by intros k s; apply Hstring|].
        split; [by intros k; apply Hfield|].
        left. exists before, old, after.
        split; [done|]. split; [done|]. split; [done|].
        split; [by rewrite set_collection_same|]. split; [done|].
        split; [by intros k; apply Hundef|].
        intros k Ht Hd. apply lookup_union_r. by apply Hother.
    + assert (fields d = sets ∪ {[ "sectionId" := VStr (param req "sectionId") ]})
        as Hfields
        by (rewrite Hfs; by destruct (default setDefaultsOnInsert_default None)).
      rewrite Hfields. split.
      * rewrite lookup_union_r by (by apply Hother).
        by rewrite lookup_singleton_eq.
      * split; [by intros k s; apply Hstring|].
        split; [by intros k; apply Hfield|].
        right. split; [done|].
        split; [by rewrite set_collection_same|]. split; [done|]. split.
        -- intros k Hk Hu. rewrite (Hundef _ k Hk Hu).
           destruct omitUndefined; [|done].
           apply lookup_singleton_ne.
           repeat (apply elem_of_cons in Hk as [->|Hk]); try done.
           by apply elem_of_nil in Hk.
        -- intros k Ht Hd Hs. rewrite lookup_union_r by (by apply Hother).
           by rewrite lookup_singleton_ne.
Qed.

End KeyedSection.

(** ** The singleton upsert *)



Lemma with_defaults_keeps (ps : list Path) (fs : gmap string Value)
    (k : string) (v : Value) :
  fs !! k = Some v → with_defaults ps fs !! k = Some v.
Proof.
  intros Hk. unfold with_defaults.
  induction ps as [|p ps IH]; cbn [foldr]; [done|].
  destruct (p_default p) as [w|]; [|done].
  destruct (foldr _ fs ps !! p_name p) eqn:Hp; [done|].
  rewrite lookup_insert_ne; [done|]. intros Heq. rewrite Heq in Hp. congruence.
Qed.



Section SingletonUpsert.
Context `{Mongoose}.





End SingletonUpsert.

(** ** User update and the password hash *)

Lemma find_first_id (i : string) (before : list Doc) (d : Doc) (after : list Doc) :
  (∀ d0, d0 ∈ before → _id d0 ≠ i) → _id d = i →
  List.find (λ d, bool_decide (_id d = i)) (before ++ d :: after) = Some d.
Proof.
  intros Hb Hd. induction before as [|x before IH]; simpl.
  - by rewrite bool_decide_eq_true_2.
  - rewrite bool_decide_eq_false_2 by (apply Hb; left).
    apply IH. intros d0 Hd0. apply Hb. by right.
Qed.

Lemma assign_lookup_ne (k k' : string) (v : JValue) (m : gmap string JValue) :
  k ≠ k' → assign_if_truthy k v m !! k' = m !! k'.
Proof.
  intros Hne. unfold assign_if_truthy. destruct (truthy v); [|done].
  by rewrite lookup_insert_ne.
Qed.

Lemma assign_plain (k : string) (v : JValue) (m : gmap string JValue) :
  is_operator k = false →
  map_Forall (λ k _, is_operator k = false) m →
  map_Forall (λ k _, is_operator k = false) (assign_if_truthy k v m).
Proof.
  intros Hk Hm. unfold assign_if_truthy. destruct (truthy v); [|done].
  by apply map_Forall_insert_2.
Qed.

Section UserUpdate.
Context `{Crypto} `{Mongoose} `{Runtime}.

(** An update by identifier with a plain update object, on a collection in
    which [d] is the first document of that identifier: it throws, or it
    rewrites [d] in place by the cast [$set]. *)
Lemma findByIdAndUpdate_plain (m : Model) (id : string)
    (upd : gmap string JValue) (env : Env) (st : Store) (i : string)
    (before : list Doc) (d : Doc) (after : list Doc) :
  castObjectId id = Some i → plain upd = true →
  st m = before ++ d :: after → _id d = i →
  (∀ d0, d0 ∈ before → _id d0 ≠ i) →
  (∃ e, findByIdAndUpdate m id upd env st = inl e)
  ∨ (∃ sets, cast_sets (s_paths (schema m)) upd = inr sets
       ∧ findByIdAndUpdate m id upd env st
         = inr (set_collection m
                  (before ++ updated (schema m) (λ fs, sets ∪ fs) env d :: after) st,
                Some (updated (schema m) (λ fs, sets ∪ fs) env d))).
Proof.
  intros Hid Hplain Hst Hd Hbefore. unfold findByIdAndUpdate. rewrite Hid.
  destruct (set_of_id upd) as [e|newId]; [left; by exists e|]. cbn [bind_err].
  destruct (cast_sets (s_paths (schema m)) upd) as [e|sets] eqn:Hsets.
  - left. exists e. unfold castUpdate. by rewrite Hsets.
  - rewrite (castUpdate_plain _ _ _ Hplain Hsets). cbn [bind_err]. rewrite Hst.
    rewrite split_first_first;
      [|intros d0 Hd0; apply bool_decide_eq_false; by apply Hbefore
       |by apply bool_decide_eq_true].
    destruct (check_id newId d) as [e|]; [left; by exists e|]. cbv zeta.
    destruct (duplicate_on_update _ _ _ _) as [e|]; [left; by exists e|].
    right. by exists sets.
Qed.

(** C4, as amended.  For a PUT on an existing user: with a password field
    that is absent, null or the empty string the stored hash of that user is
    left as it is, whatever the answer; with a non-empty string as password,
    an accepted request (200) leaves the hash of the new password (under the
    salt drawn for the request) as the stored hash, and a request that is
    not accepted leaves the whole store as it is; and whenever the answer
    carries a user record, that record has no passwordHash field. *)
Theorem updateUser_password (env : Env) (req : Request) (st : Store)
    (i : string) (before : list Doc) (d : Doc) (after : list Doc) :
  castObjectId (param req "id") = Some i →
  st User = before ++ d :: after → _id d = i →
  (∀ d0, d0 ∈ before → _id d0 ≠ i) →
  let password := prop (body req) "password" in
  let out := updateUser env req st in
  (password = JUndefined ∨ password = JNull ∨ password = JStr "" →
   stored_hash out.1 i = stored_hash st i)
  ∧ (∀ pw h, password = JStr pw → pw ≠ "" →
             bcrypt_hash (JStr pw) (salt env) = Some h →
             (status out.2 = 200 → stored_hash out.1 i = Some (VStr h))
             ∧ (status out.2 ≠ 200 → out.1 = st))
  ∧ (∀ u, json out.2 = RDoc u → fields u !! "passwordHash" = None)
  ∧ (status out.2 = 200 → ∃ u, json out.2 = RDoc u ∧ _id u = i).
Proof.
  intros Hid Hst Hd Hbefore password out. subst out. unfold updateUser.
  fold password.
  set (updateData := assign_if_truthy "status" _ _).
  assert (updateData !! "passwordHash" = None) as Hnohash.
  { unfold updateData. by rewrite !assign_lookup_ne. }
  assert (map_Forall (λ k _, is_operator k = false) updateData) as Hud.
  { unfold updateData. repeat (apply assign_plain; [done|]).
    apply map_Forall_empty. }
  assert (Hold : stored_hash st i = fields d !! "passwordHash").
  { unfold stored_hash. by rewrite Hst, find_first_id. }
  assert (Hrun : ∀ upd, plain upd = true →
    let out := match (await found <- findByIdAndUpdate User (param req "id") upd env st;
                      inr (found.1, select_without "passwordHash" <$> found.2))
                     : StoreError + Store * option Doc with
               | inr (st', None) =>
                   (st', {| status := 404; json := RMessage "User not found" |})
               | inr (st', Some updatedUser) =>
                   (st', {| status := 200; json := RDoc updatedUser |})
               | inl err => (st, {| status := 400; json := RMessage (message err) |})
               end in
    (out.1 = st ∧ status out.2 = 400 ∧ ∃ msg, json out.2 = RMessage msg)
    ∨ (∃ sets, cast_sets (s_paths userSchema) upd = inr sets
         ∧ status out.2 = 200
         ∧ stored_hash out.1 i = (sets ∪ fields d) !! "passwordHash"
         ∧ ∃ u, json out.2 = RDoc u ∧ _id u = i
                ∧ fields u !! "passwordHash" = None)).
  { intros upd Hplain.
    destruct (findByIdAndUpdate_plain User _ upd env st i before d after
                Hid Hplain Hst Hd Hbefore) as [[e ->]|(sets & Hsets & ->)];
      cbn [bind_err fst snd fmap option_fmap option_map].
    - left. repeat split. by eexists.
    - right. exists sets. split; [exact Hsets|]. split; [done|]. split.
      + unfold stored_hash, set_collection. rewrite decide_True by done.
        by rewrite find_first_id.
      + eexists. split; [reflexivity|]. split; [done|].
        cbn [fields select_without]. apply lookup_delete_eq. }
  assert (Hguard_off : truthy password && length_gt_zero password = false →
    let out := updateUser env req st in
    stored_hash out.1 i = stored_hash st i
    ∧ (∀ u, json out.2 = RDoc u → fields u !! "passwordHash" = None)
    ∧ (status out.2 = 200 → ∃ u, json out.2 = RDoc u ∧ _id u = i)).
  { intros Hoff. unfold updateUser. fold password. fold updateData.
    rewrite Hoff. cbn [bind_err].
    destruct (Hrun updateData (bool_decide_eq_true_2 _ Hud))
      as [(Hs & Hc & msg & Hm)|(sets & Hsets & Hc & Hh & u & Hu & Hi & Hp)].
    - rewrite Hs. split; [done|]. split.
      + intros u Hu. by rewrite Hm in Hu.
      + intros Hok. by rewrite Hc in Hok.
    - split.
      + rewrite Hh, Hold. apply lookup_union_r.
        by eapply cast_sets_absent.
      + split; [|intros _; by exists u].
        intros u' Hu'. rewrite Hu in Hu'. by inversion Hu'; subst. }
  destruct (truthy password && length_gt_zero password) eqn:Hguard.
  - split.
    { intros [Hp|[Hp|Hp]]; rewrite Hp in Hguard; done. }
    destruct (hashPassword password env) as [e|h] eqn:Hhash; cbn [bind_err].
    + split.
      * intros pw h Hpw Hne Hb. unfold hashPassword in Hhash.
        rewrite Hpw, Hb in Hhash. done.
      * split; [done|]. cbn [status snd]. done.
    + assert (plain (<["passwordHash" := JStr h]> updateData) = true) as Hplain.
      { apply bool_decide_eq_true. by apply map_Forall_insert_2. }
      destruct (Hrun _ Hplain)
        as [(Hs & Hc & msg & Hm)|(sets & Hsets & Hc & Hh & u & Hu & Hi & Hp)].
      * split.
        -- intros pw h' Hpw Hne Hb. split; [by rewrite Hc|done].
        -- split; [intros u Hu; by rewrite Hm in Hu|].
           intros Hok. by rewrite Hc in Hok.
      * split.
        -- intros pw h' Hpw Hne Hb. split; [|by rewrite Hc].
           intros _. unfold hashPassword in Hhash. rewrite Hpw, Hb in Hhash.
           inversion Hhash; subst h'. rewrite Hh.
           apply lookup_union_Some_l.
           apply (cast_sets_present _ _ _
                    (required (path "passwordHash" TString)) (JStr h) Hsets
                    (schema_names_NoDup User));
             [|by rewrite lookup_insert_eq|done].
           simpl. repeat (first [by left | right]).
        -- split; [|intros _; by exists u].
           intros u' Hu'. rewrite Hu in Hu'. by inversion Hu'; subst.
  - destruct (Hguard_off eq_refl) as (Hsame & Hnopw & Hok).
    unfold updateUser in Hsame, Hnopw, Hok. fold password in Hsame, Hnopw, Hok.
    fold updateData in Hsame, Hnopw, Hok.
    rewrite Hguard in Hsame, Hnopw, Hok.
    split; [by intros _|]. split; [|split; assumption].
    intros pw h Hpw Hne Hb. rewrite Hpw in Hguard. simpl in Hguard.
    apply String.eqb_neq in Hne. by rewrite Hne in Hguard.
Qed.

End UserUpdate.

(** ** Login *)

Section Login.
Context `{Crypto} `{Mongoose} `{Runtime}.

(** C3.  Let [u] be the user record the login request's email selects.
    With the correct password (the one that verifies against the stored
    hash), login succeeds exactly when the user's status is Active: then the
    answer is 200 with a token signed, for eight hours, over the user's id,
    name and role, which by the signing library's contract decodes to claims
    carrying that id and role for as long as it is valid; when the status is
    anything else the answer is 401, correct password or not.  With a wrong
    password the answer is 401 as well.  Login never changes the store. *)
Theorem login_active_only (env : Env) (req : Request) (st : Store)
    (sel : option Value → bool) (u : Doc) :
  castQuery emailPath (prop (body req) "email") = Some sel →
  findOne User (FRaw "email" sel) st = Some u →
  let password := prop (body req) "password" in
  let stored := toJ (fields u !! "passwordHash") in
  let active := fields u !! "status" = Some (VStr "Active") in
  let token := jwt_sign (loginPayload u) (secret env) 28800 (now env) in
  (bcrypt_compare password stored = Some true →
     (status (login env req st).2 = 200 ↔ active)
     ∧ (active →
        login env req st
        = (st, {| status := 200;
                  json := RLogin token (fields u !! "name") (fields u !! "role") |}))
     ∧ (active → jwt_contract →
        ∀ name role t',
          fields u !! "name" = Some (VStr name) →
          fields u !! "role" = Some (VStr role) →
          now env ≤ t' < now env + 28800 →
          ∃ claims, jwt_verify token (secret env) t' = inr claims
                    ∧ prop claims "id" = JStr (_id u)
                    ∧ prop claims "role" = JStr role))
  ∧ (¬ active → login env req st = (st, invalid_or_inactive))
  ∧ (active → bcrypt_compare password stored = Some false →
     login env req st = (st, invalid_credentials))
  ∧ (login env req st).1 = st.
Proof.
  intros Hsel Hfind password stored active token.
  assert (Hactive : active →
    login env req st
    = match verifyPassword password stored with
      | inl _ => (st, {| status := 500; json := RMessage "Server error" |})
      | inr false => (st, invalid_credentials)
      | inr true =>
          (st, {| status := 200;
                  json := RLogin token (fields u !! "name") (fields u !! "role") |})
      end).
  { intros Hact. unfold login. rewrite Hsel, Hfind.
    by rewrite bool_decide_eq_true_2. }
  assert (Hinactive : ¬ active → login env req st = (st, invalid_or_inactive)).
  { intros Hno. unfold login. rewrite Hsel, Hfind.
    by rewrite bool_decide_eq_false_2. }
  split; [|split; [done|split]].
  - intros Hpw.
    assert (verifyPassword password stored = inr true) as Hverify
      by (unfold verifyPassword; by rewrite Hpw).
    split; [|split].
    + destruct (decide active) as [Hact|Hno].
      * rewrite (Hactive Hact), Hverify. done.
      * rewrite (Hinactive Hno). split; [done|]. by intros Hact.
    + intros Hact. by rewrite (Hactive Hact), Hverify.
    + intros Hact Hcontract name role t' Hname Hrole Ht'.
      subst token. unfold loginPayload. rewrite Hname, Hrole. cbn [toJ].
      rewrite (Hcontract _ _ _ _ _ _ _ Ht').
      eexists. split; [reflexivity|]. unfold prop.
      split; by simplify_map_eq.
  - intros Hact Hpw. rewrite (Hactive Hact). unfold verifyPassword.
    by rewrite Hpw.
  - destruct (decide active) as [Hact|Hno].
    + rewrite (Hactive Hact). by destruct (verifyPassword _ _) as [|[]].
    + by rewrite (Hinactive Hno).
Qed.

End Login.

(** * Further properties *)

(** ** The writes of the mapper's operations *)

Lemma find_none_all {A : Type} (f : A → bool) (l : list A) :
  List.find f l = None → ∀ x, x ∈ l → f x = false.
Proof.
  intros Hf x Hx. apply (find_none f l Hf). by apply list_elem_of_In.
Qed.

Lemma existsb_false_all {A : Type} (f : A → bool) (l : list A) :
  existsb f l = false → ∀ x, x ∈ l → f x = false.
Proof.
  induction l as [|y l IH]; intros He x Hx; [by apply elem_of_nil in Hx|].
  simpl in He. apply orb_false_iff in He as [Hy Hl].
  apply elem_of_cons in Hx as [->|Hx]; [done|by apply IH].
Qed.

Section Writes.
Context `{Mongoose}.

Lemma save_step (m : Model) (body : gmap string JValue) (env : Env)
    (st st' : Store) (d : Doc) :
  save m body env st = inr (st', d) → Step m st st' KInsert.
Proof.
  unfold save. destruct (construct _ body) as [e|fs]; cbn [bind_err]; [done|].
  destruct (construct_id body env) as [e|i]; cbn [bind_err]; [done|].
  cbv zeta. destruct (duplicate_on_insert _ _ _) eqn:Hdup; [done|].
  intros [= <- <-]. exact (step_insert m st _ _ Hdup eq_refl).
Qed.

Lemma findByIdAndUpdate_step (m : Model) (id : string)
    (upd : gmap string JValue) (env : Env) (st st' : Store) (o : option Doc) :
  findByIdAndUpdate m id upd env st = inr (st', o) →
  (o = None ∧ st' = st) ∨ ((∃ d, o = Some d) ∧ Step m st st' KUpdate).
Proof.
  unfold findByIdAndUpdate. destruct (castObjectId id) as [i|]; [|done].
  destruct (set_of_id upd) as [e|newId]; cbn [bind_err]; [done|].
  destruct (castUpdate _ upd) as [e|g]; cbn [bind_err]; [done|].
  destruct (split_first _ (st m)) as [[[before old] after]|] eqn:Hsplit.
  - destruct (check_id newId old); [done|]. cbv zeta.
    destruct (duplicate_on_update _ _ _ _) eqn:Hdup; [done|].
    intros [= <- <-]. right. split; [by eexists|].
    apply split_first_Some in Hsplit as (Hst & _ & _).
    exact (step_update m st _ before old (updated (schema m) g env old) after
             Hst eq_refl eq_refl Hdup eq_refl).
  - intros [= <- <-]. by left.
Qed.

Lemma findByIdAndDelete_step (m : Model) (id : string) (st st' : Store)
    (o : option Doc) :
  findByIdAndDelete m id st = inr (st', o) →
  (o = None ∧ st' = st) ∨ ((∃ d, o = Some d) ∧ Step m st st' KDelete).
Proof.
  unfold findByIdAndDelete. destruct (castObjectId id) as [i|]; [|done].
  destruct (split_first _ (st m)) as [[[before old] after]|] eqn:Hsplit.
  - intros [= <- <-]. right. split; [by eexists|].
    apply split_first_Some in Hsplit as (Hst & _ & _).
    exact (step_delete m st _ before old after Hst eq_refl).
  - intros [= <- <-]. by left.
Qed.

Lemma upsert_step (m : Model) (k v : string) (upd : gmap string JValue)
    (sdi : option bool) (env : Env) (st st' : Store) (d : Doc) :
  findOneAndUpdate_upsert m k v upd sdi env st = inr (st', d) →
  Step m st st' KUpdate ∨ Step m st st' KInsert.
Proof.
  unfold findOneAndUpdate_upsert.
  destruct (set_of_id upd) as [e|newId]; cbn [bind_err]; [done|].
  destruct (castUpdate _ upd) as [e|g]; cbn [bind_err]; [done|].
  destruct (split_first _ (st m)) as [[[before old] after]|] eqn:Hsplit.
  - destruct (check_id newId old); [done|]. cbv zeta.
    destruct (duplicate_on_update _ _ _ _) eqn:Hdup; [done|].
    intros [= <- <-]. left.
    apply split_first_Some in Hsplit as (Hst & _ & _).
    exact (step_update m st _ before old (updated (schema m) g env old) after
             Hst eq_refl eq_refl Hdup eq_refl).
  - destruct (duplicate_on_insert _ _ _) eqn:Hdup; [done|].
    intros [= <- <-]. right. exact (step_insert m st _ _ Hdup eq_refl).
Qed.

End Writes.

(** ** A write keeps the unique indexes *)

Lemma NoDup_middle {A B : Type} (f : A → B) (before : list A) (x : A)
    (after : list A) :
  NoDup (f <$> (before ++ x :: after)) ↔
  (f x ∉ f <$> (before ++ after)) ∧ NoDup (f <$> (before ++ after)).
Proof.
  rewrite <- NoDup_cons.
  assert (Hperm : (f <$> (before ++ x :: after))
                  ≡ₚ (f x :: (f <$> (before ++ after)))).
  { rewrite !fmap_app, fmap_cons. by rewrite <- Permutation_middle. }
  by rewrite Hperm.
Qed.

Lemma collides_false (others : list Doc) (d : Doc) (k : string) :
  collides others d k = false →
  index_key d k ∉ ((λ d', index_key d' k) <$> others).
Proof.
  intros Hc (d' & Heq & Hd')%list_elem_of_fmap.
  apply (existsb_false_all _ _ Hc) in Hd'.
  apply bool_decide_eq_false in Hd'. by apply Hd'.
Qed.

Lemma insert_consistent (sch : Schema) (l : list Doc) (d : Doc) :
  duplicate_on_insert sch l d = None →
  consistent_collection sch l → consistent_collection sch (l ++ [d]).
Proof.
  unfold duplicate_on_insert.
  destruct (existsb _ l) eqn:Hid; [done|].
  destruct (List.find _ (s_paths sch)) eqn:Hfind; [done|]. intros _ [Hids Hkeys].
  assert (Hend : ∀ (B : Type) (f : Doc → B),
            NoDup (f <$> l) → f d ∉ (f <$> l) → NoDup (f <$> (l ++ [d]))).
  { intros B f Hnd Hnotin.
    rewrite <- (app_nil_r [d]). change ([d] ++ []) with (d :: []).
    apply NoDup_middle. by rewrite app_nil_r. }
  split.
  - apply Hend; [done|].
    intros (d' & Heq & Hd')%list_elem_of_fmap.
    apply (existsb_false_all _ _ Hid) in Hd'.
    apply bool_decide_eq_false in Hd'. by apply Hd'.
  - apply Forall_forall. intros p Hp Hu.
    rewrite Forall_forall in Hkeys.
    apply Hend; [by apply Hkeys|].
    apply collides_false.
    pose proof (find_none_all _ _ Hfind p Hp) as Hf. simpl in Hf.
    by rewrite Hu in Hf.
Qed.

Lemma update_consistent (sch : Schema) (before : list Doc) (old d : Doc)
    (after : list Doc) :
  _id d = _id old →
  duplicate_on_update sch (before ++ after) old d = None →
  consistent_collection sch (before ++ old :: after) →
  consistent_collection sch (before ++ d :: after).
Proof.
  unfold duplicate_on_update. intros Hid.
  destruct (List.find _ (s_paths sch)) eqn:Hfind; [done|]. intros _ [Hids Hkeys].
  split.
  - apply NoDup_middle. apply NoDup_middle in Hids. by rewrite Hid.
  - apply Forall_forall. intros p Hp Hu.
    rewrite Forall_forall in Hkeys. specialize (Hkeys p Hp Hu).
    apply NoDup_middle in Hkeys as [Hold Hrest]. apply NoDup_middle.
    split; [|done].
    pose proof (find_none_all _ _ Hfind p Hp) as Hf. simpl in Hf.
    rewrite Hu in Hf. simpl in Hf.
    destruct (decide (index_key d (p_name p) = index_key old (p_name p)))
      as [Heq|Hne].
    + by rewrite Heq.
    + rewrite bool_decide_eq_false_2 in Hf by done. simpl in Hf.
      by apply collides_false.
Qed.

Lemma delete_consistent (sch : Schema) (before : list Doc) (old : Doc)
    (after : list Doc) :
  consistent_collection sch (before ++ old :: after) →
  consistent_collection sch (before ++ after).
Proof.
  intros [Hids Hkeys]. split.
  - by apply NoDup_middle in Hids as [_ ?].
  - apply Forall_forall. intros p Hp Hu.
    rewrite Forall_forall in Hkeys. specialize (Hkeys p Hp Hu).
    by apply NoDup_middle in Hkeys as [_ ?].
Qed.

Lemma Step_consistent (m : Model) (st st' : Store) (k : Kind) :
  Step m st st' k → consistent st → consistent st'.
Proof.
  intros Hstep Hst m'.
  assert (Hother : ∀ l, consistent_collection (schema m) l →
            consistent_collection (schema m') (set_collection m l st m')).
  { intros l Hl. destruct (decide (m' = m)) as [->|Hne].
    - by rewrite set_collection_same.
    - rewrite set_collection_other by done. apply Hst. }
  destruct Hstep as [d Hdup ->|before old d after Hm Hid _ Hdup ->
                    |before old after Hm ->]; apply Hother.
  - apply insert_consistent; [done|apply Hst].
  - eapply update_consistent; [done|done|]. rewrite <- Hm. apply Hst.
  - eapply delete_consistent. rewrite <- Hm. apply Hst.
Qed.


(** ** The effect of every route *)

Lemma route_elem (rs : list Route) (meth : Method) (segs : list string)
    (r : Route) (ps : gmap string string) :
  route rs meth segs = Some (r, ps) → r ∈ rs ∧ r_method r = meth.
Proof.
  induction rs as [|x rs IH]; simpl; [done|].
  destruct (bool_decide (r_method x = meth)) eqn:Hm.
  - destruct (match_pattern (r_pattern x) segs) as [qs|].
    + intros [= <- <-]. apply bool_decide_eq_true in Hm. split; [by left|done].
    + intros Hr. destruct (IH Hr). split; [by right|done].
  - intros Hr. destruct (IH Hr). split; [by right|done].
Qed.

Section Effects.
Context `{Crypto} `{Mongoose} `{Runtime}.

(** A property of the store before and after that holds when nothing is
    written, that does not look at the case of the endpoint name and that
    every route of its method keeps holds for every request. *)
Lemma dispatch_sound
    (R : string → Method → Env → option string → Store → Store → Prop)
    (mounts : list (string * list Route)) :
  (∀ name meth env a st, R name meth env a st st) →
  (∀ name name' meth env a st st',
     same_segment name name' = true →
     R name meth env a st st' → R name' meth env a st st') →
  Forall (λ pr, Forall (λ r, ∀ env req st,
                          R pr.1 (r_method r) env (authorization req) st
                            (run_route r env req st).1) pr.2) mounts →
  ∀ meth name segs env req st,
    R name meth env (authorization req) st
      (dispatch mounts meth name segs env req st).1.
Proof.
  intros Hrefl Hcase Hall meth name segs env req st.
  induction Hall as [|[prefix rs] mounts Hrs _ IH]; cbn [dispatch];
    [apply Hrefl|].
  destruct (same_segment prefix name) eqn:Hname; [|apply IH].
  destruct (route rs meth segs) as [[r ps]|] eqn:Hroute; [|apply IH].
  apply route_elem in Hroute as [Hin <-]. rewrite Forall_forall in Hrs.
  apply (Hcase prefix name _ _ _ _ _ Hname).
  apply (Hrs r Hin env (with_params req ps) st).
Qed.

Lemma endpointModel_case (name name' : string) :
  same_segment name name' = true → endpointModel name = endpointModel name'.
Proof.
  unfold same_segment. intros Heq%String.eqb_eq. unfold endpointModel, same_segment.
  by rewrite Heq.
Qed.

Lemma gated_effect (requiredRole : string) (h : Handler) (env : Env)
    (req : Request) (st : Store) :
  (gated (authMiddleware requiredRole) h env req st).1 = st
  ∨ ∃ claims,
      (gated (authMiddleware requiredRole) h env req st).1
      = (h env (set_user req claims) st).1
      ∧ authenticated env (authorization req)
          (String.eqb requiredRole "Administrator").
Proof.
  unfold gated, authMiddleware.
  destruct (bearer (authorization req)) as [[|c t]|] eqn:Hb; [by left| |by left].
  destruct (jwt_verify _ _ _) as [e|claims] eqn:Hv; [by left|].
  destruct (String.eqb requiredRole "Administrator") eqn:Hrole; simpl.
  - destruct (is_str (prop claims "role") "Administrator") eqn:Hadm; simpl;
      [|by left].
    right. exists claims. split; [done|]. exists (String c t), claims.
    repeat split; try done. intros _. by apply is_str_spec.
  - right. exists claims. split; [done|]. exists (String c t), claims.
    repeat split; done.
Qed.

Lemma gated_route (name : string) (m : Model) (ks : list Kind)
    (requiredRole : string) (h : Handler) :
  endpointModel name = Some m →
  Forall (λ k, permits m k = true
               ∧ (needs_admin m k = true →
                  String.eqb requiredRole "Administrator" = true)) ks →
  writes m ks h →
  ∀ env req st,
    Effect name env (authorization req) st
      (gated (authMiddleware requiredRole) h env req st).1.
Proof.
  intros Hname Hks Hh env req st.
  destruct (gated_effect requiredRole h env req st)
    as [->|(claims & -> & t & c & Hb & Ht & Hv & Hrole)]; [by left|].
  destruct (Hh env (set_user req claims) st) as [->|(k & Hk & Hstep)];
    [by left|].
  rewrite Forall_forall in Hks. destruct (Hks k Hk) as [Hperm Hadmin].
  right. exists m, k. repeat split; try done.
  exists t, c. repeat split; try done. intros Hneeds. by apply Hrole, Hadmin.
Qed.

Lemma create_writes (m : Model) : writes m [KInsert] (create (createCrudController m)).
Proof.
  intros env req st. cbn [create createCrudController].
  destruct (save m (body req) env st) as [e|[st' d]] eqn:Hsave; [by left|].
  right. exists KInsert. split; [by left|]. by eapply save_step.
Qed.

Lemma update_writes (m : Model) : writes m [KUpdate] (update (createCrudController m)).
Proof.
  intros env req st. cbn [update createCrudController].
  destruct (findByIdAndUpdate m _ _ env st) as [e|[st' o]] eqn:Hup; [by left|].
  destruct (findByIdAndUpdate_step _ _ _ _ _ _ _ Hup)
    as [[-> ->]|[[d ->] Hstep]]; [by left|].
  right. exists KUpdate. split; [by left|done].
Qed.

Lemma delete_writes (m : Model) : writes m [KDelete] (delete_ (createCrudController m)).
Proof.
  intros env req st. cbn [delete_ createCrudController].
  destruct (findByIdAndDelete m _ st) as [e|[st' o]] eqn:Hdel; [by left|].
  destruct (findByIdAndDelete_step _ _ _ _ _ Hdel)
    as [[-> ->]|[[d ->] Hstep]]; [by left|].
  right. exists KDelete. split; [by left|done].
Qed.

Lemma updateSingleton_writes (m : Model) :
  writes m [KInsert; KUpdate] (updateSingleton (createCrudController m)).
Proof.
  intros env req st. cbn [updateSingleton createCrudController].
  destruct (findOneAndUpdate_upsert m _ _ _ _ env st) as [e|[st' d]] eqn:Hup;
    [by left|].
  right. destruct (upsert_step _ _ _ _ _ _ _ _ _ Hup) as [Hstep|Hstep].
  - exists KUpdate. split; [right; by left|done].
  - exists KInsert. split; [by left|done].
Qed.

Lemma putSection_writes : writes SingleSection [KInsert; KUpdate] putSection.
Proof.
  intros env req st. unfold putSection.
  destruct (findOneAndUpdate_upsert _ _ _ _ _ env st) as [e|[st' d]] eqn:Hup;
    [by left|].
  right. destruct (upsert_step _ _ _ _ _ _ _ _ _ Hup) as [Hstep|Hstep].
  - exists KUpdate. split; [right; by left|done].
  - exists KInsert. split; [by left|done].
Qed.

Lemma createUser_writes : writes User [KInsert] createUser.
Proof.
  intros env req st. unfold createUser.
  destruct (_ || _); [by left|].
  destruct (castQuery emailPath _) as [sel|]; [|by left].
  destruct (findOne User _ st); [by left|].
  destruct (hashPassword _ env) as [e|h]; cbn [bind_err]; [by left|].
  destruct (save User _ env st) as [e|[st' d]] eqn:Hsave; cbn [bind_err];
    [by left|].
  right. exists KInsert. split; [by left|]. by eapply save_step.
Qed.

Lemma updateUser_writes : writes User [KUpdate] updateUser.
Proof.
  intros env req st. unfold updateUser.
  match goal with
  | |- context [bind_err ?x _] => destruct x as [e|upd]
  end; cbn [bind_err]; [by left|].
  destruct (findByIdAndUpdate User _ upd env st) as [e|[st' o]] eqn:Hup;
    cbn [bind_err]; [by left|].
  destruct (findByIdAndUpdate_step _ _ _ _ _ _ _ Hup)
    as [[-> ->]|[[d ->] Hstep]]; [by left|].
  right. exists KUpdate. split; [by left|done].
Qed.

Lemma login_reads (env : Env) (req : Request) (st : Store) :
  (login env req st).1 = st.
Proof.
  unfold login. destruct (castQuery emailPath _); [|done].
  destruct (findOne User _ st); [|done].
  destruct (negb _); [done|].
  by destruct (verifyPassword _ _) as [|[]].
Qed.

Lemma getSingleton_reads (m : Model) (env : Env) (req : Request) (st : Store) :
  (getSingleton (createCrudController m) env req st).1 = st.
Proof. cbn [getSingleton createCrudController]. by destruct (findOne _ _ _). Qed.

Lemma getSection_reads (env : Env) (req : Request) (st : Store) :
  (getSection env req st).1 = st.
Proof. unfold getSection. by destruct (findOne _ _ _). Qed.

Lemma defineCrudRoutes_effect (name : string) (m : Model) :
  endpointModel name = Some m → permits m KDelete = true →
  needs_admin m KInsert = false → needs_admin m KUpdate = false →
  Forall (λ r, ∀ env req st,
            Effect name env (authorization req) st (run_route r env req st).1)
         (defineCrudRoutes m).
Proof.
  intros Hname Hdel Hins Hupd. unfold defineCrudRoutes, run_route.
  repeat apply Forall_cons_2; cbn [r_gate r_handler]; try apply Forall_nil_2.
  - intros env req st. by left.
  - apply (gated_route name m [] "Editor"); [done|apply Forall_nil_2|].
    intros ???. by left.
  - apply (gated_route name m [KInsert] "Editor"); [done| |apply create_writes].
    apply Forall_cons_2; [|apply Forall_nil_2]. split; [done|by rewrite Hins].
  - apply (gated_route name m [KUpdate] "Editor"); [done| |apply update_writes].
    apply Forall_cons_2; [|apply Forall_nil_2]. split; [done|by rewrite Hupd].
  - apply (gated_route name m [KDelete] "Administrator");
      [done| |apply delete_writes].
    apply Forall_cons_2; [|apply Forall_nil_2]. by split.
Qed.

Lemma singletonRouter_effect (name : string) (m : Model) :
  endpointModel name = Some m →
  needs_admin m KInsert = false → needs_admin m KUpdate = false →
  Forall (λ r, ∀ env req st,
            Effect name env (authorization req) st (run_route r env req st).1)
         (singletonRouter m).
Proof.
  intros Hname Hins Hupd. unfold singletonRouter, run_route.
  repeat apply Forall_cons_2; cbn [r_gate r_handler]; try apply Forall_nil_2.
  - intros env req st. left. apply getSingleton_reads.
  - apply (gated_route name m [KInsert; KUpdate] "Editor");
      [done| |apply updateSingleton_writes].
    repeat (apply Forall_cons_2; [split; [done|by rewrite ?Hins, ?Hupd]|]).
    apply Forall_nil_2.
Qed.

Lemma authRouter_effect :
  Forall (λ r, ∀ env req st,
            Effect "auth" env (authorization req) st (run_route r env req st).1)
         authRouter.
Proof.
  unfold authRouter, run_route.
  repeat apply Forall_cons_2; cbn [r_gate r_handler]; try apply Forall_nil_2.
  intros env req st. left. apply login_reads.
Qed.

Lemma userRouter_effect :
  Forall (λ r, ∀ env req st,
            Effect "users" env (authorization req) st (run_route r env req st).1)
         userRouter.
Proof.
  unfold userRouter, run_route.
  repeat apply Forall_cons_2; cbn [r_gate r_handler]; try apply Forall_nil_2.
  - apply (gated_route "users" User [] "Administrator");
      [done|apply Forall_nil_2|].
    intros ???. by left.
  - apply (gated_route "users" User [KInsert] "Administrator");
      [done| |apply createUser_writes].
    apply Forall_cons_2; [by split|apply Forall_nil_2].
  - apply (gated_route "users" User [KUpdate] "Administrator");
      [done| |apply updateUser_writes].
    apply Forall_cons_2; [by split|apply Forall_nil_2].
  - apply (gated_route "users" User [KDelete] "Administrator");
      [done| |apply delete_writes].
    apply Forall_cons_2; [by split|apply Forall_nil_2].
Qed.

Lemma singleSectionRouter_effect :
  Forall (λ r, ∀ env req st,
            Effect "sections" env (authorization req) st
              (run_route r env req st).1)
         singleSectionRouter.
Proof.
  unfold singleSectionRouter, run_route.
  repeat apply Forall_cons_2; cbn [r_gate r_handler]; try apply Forall_nil_2.
  - intros env req st. left. apply getSection_reads.
  - apply (gated_route "sections" SingleSection [KInsert; KUpdate] "Editor");
      [done| |apply putSection_writes].
    repeat (apply Forall_cons_2; [by split|]). apply Forall_nil_2.
Qed.

(** Every request has the effect of its route. *)
Lemma serve_effect (meth : Method) (name : string) (segs : list string)
    (env : Env) (req : Request) (st : Store) :
  Effect name env (authorization req) st (serve meth name segs env req st).1.
Proof.
  unfold serve.
  apply (dispatch_sound (λ name _, Effect name)); [by left| |].
  { intros name0 name' _ env0 a st0 st' Hcase
      [Hsame|(m & k & Hm & Hrest)]; [by left|right].
    exists m, k. by rewrite <- (endpointModel_case _ _ Hcase). }
  unfold app.
  apply Forall_cons_2; [apply authRouter_effect|].
  apply Forall_cons_2; [by apply defineCrudRoutes_effect|].
  apply Forall_cons_2; [by apply defineCrudRoutes_effect|].
  apply Forall_cons_2; [by apply defineCrudRoutes_effect|].
  apply Forall_cons_2; [by apply defineCrudRoutes_effect|].
  apply Forall_cons_2; [apply userRouter_effect|].
  apply Forall_cons_2; [by apply singletonRouter_effect|].
  apply Forall_cons_2; [by apply singletonRouter_effect|].
  apply Forall_cons_2; [apply singleSectionRouter_effect|].
  apply Forall_nil_2.
Qed.

End Effects.


(** ** What no request does *)

Lemma Step_other (m m' : Model) (st st' : Store) (k : Kind) :
  Step m st st' k → m' ≠ m → st' m' = st m'.
Proof.
  intros [d _ ->|before old d after _ _ _ _ ->|before old after _ ->] Hne;
    by apply set_collection_other.
Qed.

Lemma Step_length (m : Model) (st st' : Store) (k : Kind) :
  Step m st st' k →
  match k with
  | KInsert => length (st' m) = S (length (st m))
  | KUpdate => length (st' m) = length (st m)
  | KDelete => length (st m) = S (length (st' m))
  end.
Proof.
  intros [d _ ->|before old d after Hm _ _ _ ->|before old after Hm ->];
    rewrite set_collection_same, ?Hm, !length_app; simpl; lia.
Qed.

Lemma gated_reads `{Crypto} (requiredRole : string) (h : Handler) :
  (∀ env req st, (h env req st).1 = st) →
  ∀ env req st, (gated (authMiddleware requiredRole) h env req st).1 = st.
Proof.
  intros Hh env req st. unfold gated.
  destruct (authMiddleware requiredRole env req); [done|apply Hh].
Qed.

Section NeverDone.
Context `{Crypto} `{Mongoose} `{Runtime}.

(** X1.  A request that carries no token that verifies (no Authorization
    header, no second word in it, or a token the verification refuses)
    leaves the whole store as it is, whatever its method, path and body. *)
Theorem unauthenticated_requests_write_nothing (meth : Method) (name : string)
    (segs : list string) (env : Env) (req : Request) (st : Store) :
  (∀ t claims, bearer (authorization req) = Some t → t ≠ "" →
               jwt_verify t (secret env) (now env) ≠ inr claims) →
  (serve meth name segs env req st).1 = st.
Proof.
  intros Hno.
  destruct (serve_effect meth name segs env req st)
    as [Hsame|(m & k & _ & _ & _ & t & claims & Hb & Ht & Hv & _)]; [done|].
  by destruct (Hno t claims Hb Ht).
Qed.

(** X2.  A request after which the users collection differs, or after which
    some collection holds fewer documents, carried a token that verifies
    with the role claim Administrator. *)
Theorem removals_and_user_writes_need_administrator (meth : Method)
    (name : string) (segs : list string) (env : Env) (req : Request)
    (st : Store) :
  let st' := (serve meth name segs env req st).1 in
  st' User ≠ st User ∨ (∃ m, (length (st' m) < length (st m))%nat) →
  authenticated env (authorization req) true.
Proof.
  intros st' Hchange. subst st'.
  destruct (serve_effect meth name segs env req st)
    as [Hsame|(m & k & _ & _ & Hstep & Hauth)].
  { rewrite Hsame in Hchange. destruct Hchange as [?|[m ?]]; [done|lia]. }
  destruct (needs_admin m k) eqn:Hneeds; [done|]. exfalso.
  pose proof (Step_length _ _ _ _ Hstep) as Hlen.
  destruct Hchange as [Husers|[m' Hshrink]].
  - apply Husers. apply (Step_other _ _ _ _ _ Hstep).
    intros <-. by destruct k.
  - destruct (decide (m' = m)) as [->|Hne].
    + destruct k; [lia|lia|done].
    + rewrite (Step_other _ _ _ _ _ Hstep Hne) in Hshrink. lia.
Qed.

(** X3.  A request to [/api/<name>/...] changes no collection but the one
    mounted under that name; in particular a request to an endpoint that
    mounts no collection ([/api/auth], an unknown name) changes nothing. *)
Theorem requests_write_their_own_collection (meth : Method) (name : string)
    (segs : list string) (env : Env) (req : Request) (st : Store) (m : Model) :
  endpointModel name ≠ Some m →
  (serve meth name segs env req st).1 m = st m.
Proof.
  intros Hname.
  destruct (serve_effect meth name segs env req st)
    as [->|(m' & k & Hm' & _ & Hstep & _)]; [done|].
  apply (Step_other _ _ _ _ _ Hstep). intros ->. by apply Hname.
Qed.

(** X4.  One request changes the number of documents of a collection by at
    most one, and it never removes a singleton document (personal-info,
    skills) or a keyed section: these collections have no delete route. *)
Theorem requests_change_one_document (meth : Method) (name : string)
    (segs : list string) (env : Env) (req : Request) (st : Store) (m : Model) :
  let st' := (serve meth name segs env req st).1 in
  (length (st m) ≤ S (length (st' m)))%nat
  ∧ (length (st' m) ≤ S (length (st m)))%nat
  ∧ (m ∈ [PersonalInfo; Skills; SingleSection] →
     (length (st m) ≤ length (st' m))%nat).
Proof.
  intros st'. subst st'.
  destruct (serve_effect meth name segs env req st)
    as [->|(m' & k & _ & Hperm & Hstep & _)]; [repeat split; lia|].
  pose proof (Step_length _ _ _ _ Hstep) as Hlen.
  destruct (decide (m = m')) as [->|Hne].
  - split; [destruct k; lia|]. split; [destruct k; lia|].
    intros Hm. destruct k; [lia|lia|]. exfalso.
    repeat (apply elem_of_cons in Hm as [->|Hm]); try done.
    by apply elem_of_nil in Hm.
  - rewrite (Step_other _ _ _ _ _ Hstep Hne). repeat split; lia.
Qed.

(** X5.  The unique indexes are an invariant of the application: if no two
    documents of a collection share an identifier or the key of a path
    declared unique (a user's email, the singleton marker, a section's key),
    the same holds after any request. *)
Theorem requests_keep_unique_indexes (meth : Method) (name : string)
    (segs : list string) (env : Env) (req : Request) (st : Store) :
  consistent st → consistent (serve meth name segs env req st).1.
Proof.
  intros Hst.
  destruct (serve_effect meth name segs env req st)
    as [->|(m & k & _ & _ & Hstep & _)]; [done|].
  by eapply Step_consistent.
Qed.

Lemma defineCrudRoutes_reads (m : Model) :
  Forall (λ r, ∀ env req st,
            r_method r = GET → (run_route r env req st).1 = st)
         (defineCrudRoutes m).
Proof.
  unfold defineCrudRoutes, run_route.
  repeat apply Forall_cons_2; cbn [r_gate r_handler r_method];
    try apply Forall_nil_2; intros env req st Hm; try discriminate Hm.
  - done.
  - by apply gated_reads.
Qed.

(** X6.  GET requests and requests to [/api/auth] (login) only read: the
    store after them is the store before them. *)
Theorem reads_write_nothing (meth : Method) (name : string)
    (segs : list string) (env : Env) (req : Request) (st : Store) :
  meth = GET ∨ name = "auth" →
  (serve meth name segs env req st).1 = st.
Proof.
  intros [->| ->].
  - unfold serve.
    apply (dispatch_sound (λ _ meth _ _ st st', meth = GET → st' = st));
      [done|done| |done].
    unfold app.
    apply Forall_cons_2.
    { unfold authRouter. repeat apply Forall_cons_2; try apply Forall_nil_2.
      intros env' req' st' Hm. discriminate Hm. }
    do 4 (apply Forall_cons_2; [by apply defineCrudRoutes_reads|]).
    apply Forall_cons_2.
    { unfold userRouter, run_route.
      repeat apply Forall_cons_2; cbn [r_gate r_handler r_method];
        try apply Forall_nil_2; intros env' req' st' Hm; try discriminate Hm.
      by apply gated_reads. }
    do 2 (apply Forall_cons_2;
          [unfold singletonRouter, run_route;
           repeat apply Forall_cons_2; cbn [r_gate r_handler r_method];
           try apply Forall_nil_2; intros env' req' st' Hm;
           try discriminate Hm; apply getSingleton_reads|]).
    apply Forall_cons_2; [|apply Forall_nil_2].
    unfold singleSectionRouter, run_route.
    repeat apply Forall_cons_2; cbn [r_gate r_handler r_method];
      try apply Forall_nil_2; intros env' req' st' Hm; try discriminate Hm.
    apply getSection_reads.
  - destruct (serve_effect meth "auth" segs env req st)
      as [Hsame|(m & k & Hm & _)]; [done|]. vm_compute in Hm. discriminate Hm.
Qed.

End NeverDone.


(** ** The admin list, create and delete *)

Lemma filter_all (l : list Doc) : List.filter (matches FAll) l = l.
Proof. induction l as [|d l IH]; simpl; [done|]. by rewrite IH. Qed.

Section ListCreateDelete.
Context `{Mongoose}.

(** X7.  The admin list answers 200 with every document of the collection,
    published or not, each as often as it is stored and as it is stored, in
    descending order of creation time, and leaves the store as it is. *)
Theorem getAllAdmin_everything_sorted (m : Model) (env : Env) (req : Request)
    (st : Store) :
  ∃ items,
    getAllAdmin (createCrudController m) env req st
      = (st, {| status := 200; json := RDocs items |})
    ∧ items ≡ₚ st m
    ∧ StronglySorted created_desc items.
Proof.
  exists (find_sorted m FAll st).
  destruct (find_sorted_spec m FAll st) as [Hp Hs].
  split; [done|]. split; [|done]. by rewrite Hp, filter_all.
Qed.

Lemma construct_dom (ps : list Path) (body : gmap string JValue)
    (fs : gmap string Value) (k : string) :
  construct ps body = inr fs → k ∉ map p_name ps → fs !! k = None.
Proof.
  revert fs. induction ps as [|p ps IH]; intros fs Hc Hk; simpl in Hc.
  - by inversion Hc.
  - destruct (construct_path p body) as [e|v]; simpl in Hc; [done|].
    destruct (validate_path p v); [done|].
    destruct (construct ps body) as [e|rest]; simpl in Hc; [done|].
    inversion Hc; subst; clear Hc. simpl in Hk.
    apply not_elem_of_cons in Hk as [Hne Hk].
    destruct v; [rewrite lookup_insert_ne by done|]; by apply IH.
Qed.

Lemma construct_lookup (ps : list Path) (body : gmap string JValue)
    (fs : gmap string Value) (p : Path) :
  construct ps body = inr fs → NoDup (map p_name ps) → p ∈ ps →
  construct_path p body = inr (fs !! p_name p)
  ∧ validate_path p (fs !! p_name p) = None.
Proof.
  revert fs. induction ps as [|q ps IH]; intros fs Hc Hnd Hin; simpl in Hc.
  - by apply elem_of_nil in Hin.
  - destruct (construct_path q body) as [e|w] eqn:Hq; simpl in Hc; [done|].
    destruct (validate_path q w) eqn:Hval; [done|].
    destruct (construct ps body) as [e|rest] eqn:Hrest; simpl in Hc; [done|].
    inversion Hc; subst; clear Hc.
    apply NoDup_cons in Hnd as [Hnotin Hnd].
    apply elem_of_cons in Hin as [->|Hin].
    + assert (rest !! p_name q = None) as Hnone by (by eapply construct_dom).
      destruct w as [w|]; [rewrite lookup_insert_eq|rewrite Hnone]; by rewrite Hq.
    + assert (p_name q ≠ p_name p) as Hne.
      { intros Heq. apply Hnotin. rewrite Heq.
        apply list_elem_of_In, in_map, list_elem_of_In, Hin. }
      destruct w; [rewrite lookup_insert_ne by done|]; by apply IH.
Qed.

Lemma construct_fails (ps : list Path) (body : gmap string JValue) (p : Path) :
  p ∈ ps →
  (∀ v, construct_path p body = inr v → validate_path p v ≠ None) →
  ∃ e, construct ps body = inl e.
Proof.
  induction ps as [|q ps IH]; intros Hin Hbad.
  - by apply elem_of_nil in Hin.
  - simpl. destruct (construct_path q body) as [e|w] eqn:Hq; simpl;
      [by eexists|].
    destruct (validate_path q w) eqn:Hval; [by eexists|].
    apply elem_of_cons in Hin as [->|Hin].
    + by destruct (Hbad w Hq).
    + destruct (IH Hin Hbad) as [e ->]. by eexists.
Qed.

(** X8.  Create answers 201 or 400.  On 400 the store is as before and the
    answer is a message.  On 201 the answer is the new document, appended to
    its collection under an identifier no stored document has: the
    generated one when the body names no [_id], the identifier the body's
    [_id] is cast to when that is a string.  When the body names no
    creation time the document is stamped with the clock where the schema
    keeps timestamps.  For a body of field names (no operator key, no
    dotted path) the document holds no field outside the schema, for every
    schema path the body names the body's value cast to the path's type,
    for every other path the default if there is one (the empty array for
    an array path), and every path passes its validation (a required path
    is there and no empty string, an enumerated path holds one of its
    values). *)
Theorem create_stores_valid_documents (m : Model) (env : Env) (req : Request)
    (st : Store) :
  let out := create (createCrudController m) env req st in
  (status out.2 = 400 ∧ out.1 = st ∧ ∃ msg, json out.2 = RMessage msg)
  ∨ (status out.2 = 201
     ∧ ∃ d, json out.2 = RDoc d
        ∧ out.1 = set_collection m (st m ++ [d]) st
        ∧ (∀ d0, d0 ∈ st m → _id d0 ≠ _id d)
        ∧ (body req !! "_id" = None → _id d = oid env)
        ∧ (∀ s, body req !! "_id" = Some (JStr s) →
                castObjectId s = Some (_id d))
        ∧ (body req !! "createdAt" = None →
           createdAt d = (if s_timestamps (schema m) then Some (now env)
                          else None)
           ∧ updatedAt d = createdAt d)
        ∧ (plain (body req) = true →
           (∀ k, k ∉ map p_name (s_paths (schema m)) → fields d !! k = None)
           ∧ (∀ p v, p ∈ s_paths (schema m) → body req !! p_name p = Some v →
                     v ≠ JUndefined → fields d !! p_name p = cast p v)
           ∧ (∀ p, p ∈ s_paths (schema m) → body req !! p_name p = None →
                   fields d !! p_name p = p_default p)
           ∧ (∀ p, p ∈ s_paths (schema m) →
                   validate_path p (fields d !! p_name p) = None))).
Proof.
  intros out. subst out. cbn [create createCrudController].
  destruct (save m (body req) env st) as [e|[st' d]] eqn:Hsave;
    [left; repeat split; by eexists|].
  apply save_inr in Hsave as (Hc & Hid & Hcreated & Hupdated & -> & Hfresh).
  right. split; [done|]. exists d. split; [done|]. split; [done|].
  split; [done|]. split; [|split; [|split]].
  - intros Hk. rewrite (construct_id_absent _ _ Hk) in Hid. by injection Hid.
  - intros s Hk. unfold construct_id, prop in Hid. rewrite Hk in Hid.
    simpl in Hid. destruct (castObjectId s); [|done]. by injection Hid as ->.
  - done.
  - intros _. repeat split.
    + intros k Hk. by eapply construct_dom.
    + intros p v Hp Hv Hu.
      destruct (construct_lookup _ _ _ p Hc (schema_names_NoDup m) Hp)
        as [Hpath _].
      unfold construct_path, prop in Hpath. rewrite Hv in Hpath.
      simpl in Hpath.
      destruct v; try done;
        (destruct (cast p _) as [v'|]; [by inversion Hpath|done]).
    + intros p Hp Hv.
      destruct (construct_lookup _ _ _ p Hc (schema_names_NoDup m) Hp)
        as [Hpath _].
      unfold construct_path, prop in Hpath. rewrite Hv in Hpath.
      simpl in Hpath. by inversion Hpath.
    + intros p Hp.
      by destruct (construct_lookup _ _ _ p Hc (schema_names_NoDup m) Hp).
Qed.

(** X9.  Create refuses a body that lacks a required path without default,
    or that gives the empty string for a required string path without
    setters: the answer is 400 and nothing is stored. *)
Theorem create_rejects_missing_required (m : Model) (env : Env) (req : Request)
    (st : Store) (p : Path) :
  p ∈ s_paths (schema m) → p_required p = true →
  (body req !! p_name p = None ∧ p_default p = None)
  ∨ (body req !! p_name p = Some (JStr "") ∧ p_type p = TString
     ∧ p_trim p = false ∧ p_lowercase p = false) →
  let out := create (createCrudController m) env req st in
  status out.2 = 400 ∧ out.1 = st.
Proof.
  intros Hp Hreq Hbody out. subst out. cbn [create createCrudController].
  unfold save.
  destruct (construct_fails (s_paths (schema m)) (body req) p Hp) as [e ->];
    [|done].
  intros v Hv. unfold validate_path. rewrite Hreq.
  unfold construct_path, prop in Hv.
  destruct Hbody as [[Hnone Hdef]|(Hempty & Hty & Htrim & Hlow)].
  - rewrite Hnone in Hv. simpl in Hv. inversion Hv; subst.
    by rewrite Hdef.
  - rewrite Hempty in Hv. simpl in Hv. unfold cast in Hv.
    rewrite Hty, Htrim, Hlow in Hv. simpl in Hv. by inversion Hv; subst.
Qed.

(** X10.  Delete by identifier: an identifier that is none of the store's
    kind is answered 500; one that casts and that no document carries is
    answered 404, the store untouched; otherwise the answer is 200 and
    exactly the first document with the identifier is removed.  When the
    identifiers of the collection are distinct, no document with the
    identifier is left, and deleting it again is answered 404. *)
Theorem delete_by_id (m : Model) (env : Env) (req : Request) (st : Store) :
  let out := delete_ (createCrudController m) env req st in
  (castObjectId (param req "id") = None →
   out = (st, {| status := 500; json := RMessage (message (CastError "_id")) |}))
  ∧ (∀ i, castObjectId (param req "id") = Some i →
      ((∀ d, d ∈ st m → _id d ≠ i) → out = (st, item_not_found))
      ∧ (∀ before d after,
           st m = before ++ d :: after → _id d = i →
           (∀ d0, d0 ∈ before → _id d0 ≠ i) →
           out = (set_collection m (before ++ after) st,
                  {| status := 200;
                     json := RMessage "Item deleted successfully" |})
           ∧ (NoDup (_id <$> st m) →
              (∀ d', d' ∈ out.1 m → _id d' ≠ i)
              ∧ ∀ env' req', param req' "id" = param req "id" →
                  delete_ (createCrudController m) env' req' out.1
                  = (out.1, item_not_found)))).
Proof.
  intros out. subst out. cbn [delete_ createCrudController].
  unfold findByIdAndDelete. split; [by intros ->|].
  intros i Hi. rewrite Hi.
  assert (Habsent : ∀ st0, (∀ d, d ∈ st0 m → _id d ≠ i) →
            split_first (λ d, bool_decide (_id d = i)) (st0 m) = None).
  { intros st0 Hno. apply split_first_none. intros d Hd.
    apply bool_decide_eq_false. by apply Hno. }
  split.
  - intros Hno. by rewrite Habsent.
  - intros before d after Hst Hd Hbefore. rewrite Hst.
    rewrite split_first_first;
      [|intros d0 Hd0; apply bool_decide_eq_false; by apply Hbefore
       |by apply bool_decide_eq_true].
    split; [done|]. intros Hnd. cbn [fst].
    assert (Hgone : ∀ d', d' ∈ set_collection m (before ++ after) st m →
                          _id d' ≠ i).
    { rewrite set_collection_same. intros d' Hd' Heq.
      apply NoDup_middle in Hnd as [Hnotin _].
      apply Hnotin. rewrite Hd, <- Heq. by apply list_elem_of_fmap_2. }
    split; [done|]. intros env' req' ->. rewrite Hi. by rewrite Habsent.
Qed.

End ListCreateDelete.


(** ** User creation, user update and login *)

Lemma findOne_Some `{Mongoose} (m : Model) (f : Filter) (st : Store) (u : Doc) :
  findOne m f st = Some u → u ∈ st m ∧ matches f u = true.
Proof.
  unfold findOne. intros Hhead.
  assert (u ∈ List.filter (matches f) (st m)) as Hin.
  { destruct (List.filter (matches f) (st m)) as [|x l]; [done|].
    simpl in Hhead. inversion Hhead. by left. }
  apply list_elem_of_In, filter_In in Hin as [Hin Hm].
  split; [by apply list_elem_of_In|done].
Qed.

Lemma validate_enum (p : Path) (v : option Value) (vals : list string) :
  validate_path p v = None → p_required p = true → p_enum p = Some vals →
  ∃ s, v = Some (VStr s) ∧ s ∈ vals.
Proof.
  unfold validate_path. intros Hval Hreq Henum. rewrite Hreq, Henum in Hval.
  destruct v as [[|b|s|l]|]; simpl in Hval; try done.
  - destruct (negb (String.eqb s "")); simpl in Hval; [|done].
    destruct (bool_decide (s ∈ vals)) eqn:Hs; [|done].
    apply bool_decide_eq_true in Hs. by exists s.
Qed.

Lemma assign_lookup_eq (k : string) (v : JValue) (m : gmap string JValue) :
  assign_if_truthy k v m !! k = if truthy v then Some v else m !! k.
Proof.
  unfold assign_if_truthy. destruct (truthy v); [|done].
  by rewrite lookup_insert_eq.
Qed.

Lemma truthy_defined (v : JValue) : truthy v = true → v ≠ JUndefined.
Proof. by intros Ht ->. Qed.

Section Users.
Context `{Crypto} `{Mongoose} `{Runtime}.

(** X11.  POST /users answers 201 or 400, and on 400 stores nothing.  A
    body in which name, email, password, role or status is missing or falsy
    is answered 400 "All fields are required"; an email that selects a
    stored user is answered 400 "Email already exists".  On 201 exactly one
    user is appended under the generated identifier; its passwordHash is the
    hash of the password under the salt drawn for the request, the password
    itself is no field of it, its role is Administrator or Editor and its
    status Active or Inactive, and the answer repeats id, name, email, role
    and status of the request without any hash. *)
Theorem createUser_outcomes (env : Env) (req : Request) (st : Store) :
  let name := prop (body req) "name" in
  let email := prop (body req) "email" in
  let password := prop (body req) "password" in
  let role := prop (body req) "role" in
  let status_ := prop (body req) "status" in
  let out := createUser env req st in
  (truthy name = false ∨ truthy email = false ∨ truthy password = false
   ∨ truthy role = false ∨ truthy status_ = false →
   out = (st, {| status := 400; json := RMessage "All fields are required" |}))
  ∧ (truthy name = true → truthy email = true → truthy password = true →
     truthy role = true → truthy status_ = true →
     ∀ sel u, castQuery emailPath email = Some sel →
              findOne User (FRaw "email" sel) st = Some u →
              out = (st, {| status := 400;
                            json := RMessage "Email already exists" |}))
  ∧ ((status out.2 = 400 ∧ out.1 = st)
     ∨ (status out.2 = 201
        ∧ ∃ d h,
            bcrypt_hash password (salt env) = Some h
            ∧ out.1 = set_collection User (st User ++ [d]) st
            ∧ _id d = oid env
            ∧ json out.2 = RUser (oid env) name email role status_
            ∧ fields d !! "passwordHash" = Some (VStr h)
            ∧ fields d !! "password" = None
            ∧ (∃ r, fields d !! "role" = Some (VStr r)
                    ∧ r ∈ ["Administrator"; "Editor"])
            ∧ (∃ s, fields d !! "status" = Some (VStr s)
                    ∧ s ∈ ["Active"; "Inactive"]))).
Proof.
  intros name email password role status_ out. subst out. unfold createUser.
  fold name email password role status_.
  split; [|split].
  - intros Hfalsy.
    assert (negb (truthy name) || negb (truthy email) || negb (truthy password)
            || negb (truthy role) || negb (truthy status_) = true) as ->; [|done].
    destruct Hfalsy as [->|[->|[->|[->| ->]]]]; simpl;
      by rewrite ?orb_true_r.
  - intros -> -> -> -> -> sel u Hsel Hfind. simpl. by rewrite Hsel, Hfind.
  - destruct (_ || _); [by left|].
    destruct (castQuery emailPath email) as [sel|]; [|by left].
    destruct (findOne User _ st); [by left|].
    unfold hashPassword.
    destruct (bcrypt_hash password (salt env)) as [h|] eqn:Hhash;
      cbn [bind_err]; [|by left].
    unfold save.
    match goal with
    | |- context [construct ?ps ?b] =>
        destruct (construct ps b) as [e|fs] eqn:Hc
    end; cbn [bind_err]; [by left|].
    rewrite construct_id_absent by (by simplify_map_eq).
    cbn [bind_err]. cbv zeta.
    destruct (duplicate_on_insert _ _ _); cbn [bind_err]; [by left|].
    right. split; [done|]. eexists _, h. split; [done|].
    split; [reflexivity|]. split; [done|]. split; [done|].
    cbn [fields].
    assert (Hpath : ∀ p, p ∈ s_paths (schema User) →
              construct_path p {[ "name" := name; "email" := email;
                                  "passwordHash" := JStr h; "role" := role;
                                  "status" := status_ ]}
                = inr (fs !! p_name p)
              ∧ validate_path p (fs !! p_name p) = None).
    { intros p Hp. by apply (construct_lookup _ _ _ p Hc (schema_names_NoDup User)). }
    split; [|split; [|split]].
    + destruct (Hpath (required (path "passwordHash" TString))) as [Hp _].
      { simpl. repeat (first [by left | right]). }
      unfold construct_path, prop in Hp. simpl in Hp.
      rewrite lookup_insert_ne in Hp by done.
      rewrite lookup_insert_ne in Hp by done.
      rewrite lookup_insert_eq in Hp. simpl in Hp. by inversion Hp.
    + by apply (construct_dom _ _ _ "password" Hc); vm_compute;
        intros Hin; repeat (apply elem_of_cons in Hin as [?|Hin]; [done|]);
        apply elem_of_nil in Hin.
    + destruct (Hpath (required (default_ (VStr "Editor")
                  (enum ["Administrator"; "Editor"] (path "role" TString)))))
        as [_ Hv]; [simpl; repeat (first [by left | right])|].
      by apply (validate_enum _ _ _ Hv).
    + destruct (Hpath (required (default_ (VStr "Active")
                  (enum ["Active"; "Inactive"] (path "status" TString)))))
        as [_ Hv]; [simpl; repeat (first [by left | right])|].
      by apply (validate_enum _ _ _ Hv).
Qed.

(** X12.  On an accepted PUT /users/:id the user of that identifier is
    rewritten in place with its identifier kept: each of name, email, role
    and status that the body gives a truthy value holds that value cast to
    its path's type (on update the enumerations of role and status are not
    checked), each that is missing or falsy in the body is as it was, and
    so is every field other than these four and passwordHash.  When no user
    has the identifier the store is left as it is and the answer is 404,
    unless hashing or casting failed first (400). *)
Theorem updateUser_fields (env : Env) (req : Request) (st : Store) (i : string) :
  castObjectId (param req "id") = Some i →
  let out := updateUser env req st in
  (∀ before d after,
     st User = before ++ d :: after → _id d = i →
     (∀ d0, d0 ∈ before → _id d0 ≠ i) →
     status out.2 = 200 →
     ∃ d', out = (set_collection User (before ++ d' :: after) st,
                  {| status := 200;
                     json := RDoc (select_without "passwordHash" d') |})
       ∧ _id d' = _id d
       ∧ (∀ p, p ∈ s_paths userSchema →
               p_name p ∈ ["name"; "email"; "role"; "status"] →
               fields d' !! p_name p
               = if truthy (prop (body req) (p_name p))
                 then cast p (prop (body req) (p_name p))
                 else fields d !! p_name p)
       ∧ (∀ k, k ∉ ["name"; "email"; "role"; "status"; "passwordHash"] →
               fields d' !! k = fields d !! k))
  ∧ ((∀ d, d ∈ st User → _id d ≠ i) →
     out.1 = st
     ∧ (status out.2 = 400
        ∨ out.2 = {| status := 404; json := RMessage "User not found" |})).
Proof.
  intros Hid out. subst out. unfold updateUser.
  set (name := prop (body req) "name").
  set (email := prop (body req) "email").
  set (role := prop (body req) "role").
  set (status_ := prop (body req) "status").
  set (password := prop (body req) "password").
  set (updateData := assign_if_truthy "status" _ _).
  assert (map_Forall (λ k _, is_operator k = false) updateData) as Hud.
  { unfold updateData. repeat (apply assign_plain; [done|]).
    apply map_Forall_empty. }
  assert (Hkeys : ∀ upd, (upd = updateData ∨ ∃ h, upd = <["passwordHash" := JStr h]> updateData) →
            plain upd = true
            ∧ (∀ k, k ∈ ["name"; "email"; "role"; "status"] →
                    upd !! k = if truthy (prop (body req) k)
                               then Some (prop (body req) k) else None)
            ∧ (∀ k, k ∉ ["name"; "email"; "role"; "status"; "passwordHash"] →
                    upd !! k = None)).
  { assert (Hfour : ∀ k, k ∈ ["name"; "email"; "role"; "status"] →
              updateData !! k = if truthy (prop (body req) k)
                                then Some (prop (body req) k) else None).
    { intros k Hk. unfold updateData.
      repeat (apply elem_of_cons in Hk as [->|Hk]);
        [| | | |by apply elem_of_nil in Hk];
        rewrite ?assign_lookup_ne by done; rewrite assign_lookup_eq;
        rewrite ?assign_lookup_ne by done;
        by destruct (truthy _). }
    assert (Hrest : ∀ k, k ∉ ["name"; "email"; "role"; "status"; "passwordHash"] →
              updateData !! k = None).
    { intros k Hk. unfold updateData.
      repeat (apply not_elem_of_cons in Hk as [? Hk]).
      by rewrite !assign_lookup_ne. }
    intros upd [->|[h ->]].
    - split; [by apply bool_decide_eq_true|]. split; [done|done].
    - split; [apply bool_decide_eq_true; by apply map_Forall_insert_2|].
      split.
      + intros k Hk. rewrite lookup_insert_ne; [by apply Hfour|].
        intros <-. repeat (apply elem_of_cons in Hk as [?|Hk]; [done|]).
        by apply elem_of_nil in Hk.
      + intros k Hk. rewrite lookup_insert_ne; [by apply Hrest|].
        intros <-. apply Hk. repeat (first [by left | right]). }
  assert (Hcases :
    (∃ e, (if truthy password && length_gt_zero password
           then await h <- hashPassword password env;
                inr (<["passwordHash" := JStr h]> updateData)
           else inr updateData) = inl e)
    ∨ (∃ upd, (if truthy password && length_gt_zero password
               then await h <- hashPassword password env;
                    inr (<["passwordHash" := JStr h]> updateData)
               else inr updateData) = inr upd
              ∧ (upd = updateData
                 ∨ ∃ h, upd = <["passwordHash" := JStr h]> updateData))).
  { destruct (truthy password && length_gt_zero password).
    - destruct (hashPassword password env) as [e|h]; cbn [bind_err].
      + left. by exists e.
      + right. eexists. split; [done|]. right. by exists h.
    - right. eexists. split; [done|]. by left. }
  destruct Hcases as [[e ->]|(upd & -> & Hupd)]; cbn [bind_err].
  { split; [by intros|]. intros _. split; [done|by left]. }
  destruct (Hkeys upd Hupd) as (Hplain & Hfour & Hrest).
  split.
  - intros before d after Hst Hd Hbefore.
    destruct (findByIdAndUpdate_plain User _ upd env st i before d after
                Hid Hplain Hst Hd Hbefore) as [[e ->]|(sets & Hsets & ->)];
      cbn [bind_err fst snd fmap option_fmap option_map]; [done|].
    intros _. eexists. split; [reflexivity|]. split; [done|].
    cbn [fields updated]. split.
    + intros p Hp Hk. pose proof (Hfour _ Hk) as Hlook.
      destruct (truthy (prop (body req) (p_name p))) eqn:Htruthy.
      * pose proof (cast_sets_present _ _ _ p _ Hsets
                      (schema_names_NoDup User) Hp Hlook
                      (truthy_defined _ Htruthy)) as Hset.
        destruct (cast p _) as [v'|] eqn:Hc.
        -- by apply lookup_union_Some_l.
        -- destruct (cast_sets_fail (s_paths (schema User)) _ _ _ Hp Hlook
                       (truthy_defined _ Htruthy) Hc) as [e He].
           by rewrite He in Hsets.
      * apply lookup_union_r. by eapply cast_sets_absent.
    + intros k Hk. apply lookup_union_r. eapply cast_sets_absent; [done|].
      by apply Hrest.
  - intros Hno. unfold findByIdAndUpdate. rewrite Hid.
    destruct (set_of_id upd) as [e|newId]; cbn [bind_err];
      [split; [done|by left]|].
    destruct (castUpdate _ upd) as [e|g]; cbn [bind_err];
      [split; [done|by left]|].
    rewrite split_first_none
      by (intros d Hd; apply bool_decide_eq_false; by apply Hno).
    cbn [bind_err fst snd fmap option_fmap option_map].
    split; [done|by right].
Qed.

(** X13.  Login answers 200 only for a stored user whom the email selects,
    whose status is Active and whose stored hash accepts the password; the
    token of the answer is then signed over that user's id, name and role.
    When the email selects no stored user the answer is 401, and when the
    email cannot be cast to a query the answer is 500. *)
Theorem login_sound (env : Env) (req : Request) (st : Store) :
  let email := prop (body req) "email" in
  let password := prop (body req) "password" in
  let out := login env req st in
  (status out.2 = 200 →
   ∃ sel u,
     castQuery emailPath email = Some sel
     ∧ u ∈ st User ∧ sel (fields u !! "email") = true
     ∧ fields u !! "status" = Some (VStr "Active")
     ∧ bcrypt_compare password (toJ (fields u !! "passwordHash")) = Some true
     ∧ json out.2
       = RLogin (jwt_sign (loginPayload u) (secret env) 28800 (now env))
                (fields u !! "name") (fields u !! "role"))
  ∧ (∀ sel, castQuery emailPath email = Some sel →
            (∀ u, u ∈ st User → sel (fields u !! "email") = false) →
            out = (st, invalid_or_inactive))
  ∧ (castQuery emailPath email = None →
     out = (st, {| status := 500; json := RMessage "Server error" |})).
Proof.
  intros email password out. subst out. unfold login. fold email password.
  split; [|split].
  - destruct (castQuery emailPath email) as [sel|]; [|done].
    destruct (findOne User _ st) as [u|] eqn:Hfind; [|done].
    destruct (bool_decide (fields u !! "status" = Some (VStr "Active")))
      eqn:Hactive; simpl; [|done].
    apply bool_decide_eq_true in Hactive.
    unfold verifyPassword.
    destruct (bcrypt_compare password _) as [[|]|] eqn:Hcmp; [|done|done].
    intros _. apply findOne_Some in Hfind as [Hin Hm].
    exists sel, u. repeat split; done.
  - intros sel -> Hno. rewrite findOne_None; [done|].
    intros u Hu. simpl. by apply Hno.
  - by intros ->.
Qed.

End Users.


(** ** The token in the Authorization header *)

Section Header.
Context `{Crypto}.

(** X14.  The gate never looks at the scheme word of the Authorization
    header: the token is whatever stands between the first space and the
    next one.  So a spaceless token after any spaceless scheme word is taken
    as the token, two requests whose headers differ in the scheme word only
    get the same verdict, and a header with two spaces after the scheme
    word is answered 401 like a header without token. *)
Theorem gate_ignores_scheme (scheme rest : string) :
  spaceless scheme = true →
  bearer (Some (scheme +:+ String Ascii.Space rest))
    = head (split Ascii.Space rest)
  ∧ (spaceless rest = true →
     bearer (Some (scheme +:+ String Ascii.Space rest)) = Some rest)
  ∧ (∀ requiredRole env req,
       authorization req
         = Some (scheme +:+ String Ascii.Space (String Ascii.Space rest)) →
       authMiddleware requiredRole env req = Respond unauthorized)
  ∧ (∀ scheme' requiredRole env req req',
       spaceless scheme' = true →
       authorization req = Some (scheme +:+ String Ascii.Space rest) →
       authorization req' = Some (scheme' +:+ String Ascii.Space rest) →
       (∃ r, authMiddleware requiredRole env req = Respond r
             ∧ authMiddleware requiredRole env req' = Respond r)
       ∨ (∃ claims,
             authMiddleware requiredRole env req = Next (set_user req claims)
             ∧ authMiddleware requiredRole env req' = Next (set_user req' claims))).
Proof.
  intros Hs. split; [by apply bearer_word|]. split; [|split].
  - intros Hr. by rewrite bearer_word, split_spaceless.
  - intros requiredRole env req Ha. apply gate_no_token. right.
    rewrite Ha, bearer_word by done. reflexivity.
  - intros scheme' requiredRole env req req' Hs' Ha Ha'.
    unfold authMiddleware. rewrite Ha, Ha', !bearer_word by done.
    destruct (head (split Ascii.Space rest)) as [[|c t]|];
      [left; by eexists| |left; by eexists].
    destruct (jwt_verify _ _ _) as [e|claims]; [left; by eexists|].
    destruct (_ && _); [left; by eexists|right; by eexists].
Qed.

End Header.

(** ** Login, then the gate *)

Section LoginThenGate.
Context `{Crypto} `{Mongoose}.

Lemma login_200 (env : Env) (req : Request) (st : Store) :
  status (login env req st).2 = 200 →
  ∃ sel u,
    castQuery emailPath (prop (body req) "email") = Some sel
    ∧ u ∈ st User ∧ sel (fields u !! "email") = true
    ∧ fields u !! "status" = Some (VStr "Active")
    ∧ bcrypt_compare (prop (body req) "password")
        (toJ (fields u !! "passwordHash")) = Some true
    ∧ json (login env req st).2
      = RLogin (jwt_sign (loginPayload u) (secret env) 28800 (now env))
               (fields u !! "name") (fields u !! "role").
Proof.
  unfold login.
  destruct (castQuery emailPath _) as [sel|]; [|done].
  destruct (findOne User _ st) as [u|] eqn:Hfind; [|done].
  destruct (bool_decide (fields u !! "status" = Some (VStr "Active")))
    eqn:Hactive; simpl; [|done].
  apply bool_decide_eq_true in Hactive. unfold verifyPassword.
  destruct (bcrypt_compare _ _) as [[|]|] eqn:Hcmp; [|done|done].
  intros _. apply findOne_Some in Hfind as [Hin Hm].
  exists sel, u. repeat split; done.
Qed.

(** X15.  The token of a successful login opens the gate.  Under the
    signing library's contract, for a user whose name and role are strings
    and a token that is not empty and has no space: a later request that
    carries [Bearer <token>] before the eight hours are over, verified
    under the same secret, passes the gate for any role with claims that
    carry the id of a stored user and the name and role of the answer, and
    passes the Administrator gate exactly when that role is Administrator
    (403 otherwise). *)
Theorem login_token_opens_gate (env : Env) (req : Request) (st : Store)
    (token name role : string) :
  jwt_contract →
  (login env req st).2
    = {| status := 200;
         json := RLogin token (Some (VStr name)) (Some (VStr role)) |} →
  token ≠ "" → spaceless token = true →
  ∀ requiredRole env' req',
    JWT_SECRET env' = JWT_SECRET env →
    now env ≤ now env' < now env + 28800 →
    authorization req' = Some ("Bearer" +:+ String Ascii.Space token) →
    ∃ claims,
      (∃ u, u ∈ st User ∧ prop claims "id" = JStr (_id u))
      ∧ prop claims "name" = JStr name
      ∧ prop claims "role" = JStr role
      ∧ authMiddleware requiredRole env' req'
        = if String.eqb requiredRole "Administrator"
             && negb (String.eqb role "Administrator")
          then Respond forbidden
          else Next (set_user req' claims).
Proof.
  intros Hcontract Hlogin Htoken Hspace requiredRole env' req' Hsecret Hnow Ha.
  destruct (login_200 env req st) as (sel & u & _ & Hu & _ & _ & _ & Hjson);
    [by rewrite Hlogin|].
  rewrite Hlogin in Hjson. simpl in Hjson.
  injection Hjson as Htok Hname Hrole.
  assert (secret env' = secret env) as Hsec by (unfold secret; by rewrite Hsecret).
  pose proof (Hcontract (_id u) name role (secret env) 28800 (now env) (now env')
                Hnow) as Hverify.
  assert (loginPayload u
          = {[ "id" := JStr (_id u); "name" := JStr name; "role" := JStr role ]})
    as Hpayload by (unfold loginPayload; by rewrite <- Hname, <- Hrole).
  rewrite Hpayload in Htok. rewrite <- Htok, <- Hsec in Hverify.
  eexists. split; [|split; [|split]].
  4: { rewrite (gate_verified requiredRole env' req' token _
                  ltac:(rewrite Ha; by apply (bearer_word_token "Bearer"))
                  Htoken Hverify).
       unfold prop. simplify_map_eq. simpl.
       reflexivity. }
  - exists u. split; [done|]. unfold prop. by simplify_map_eq.
  - unfold prop. by simplify_map_eq.
  - unfold prop. by simplify_map_eq.
Qed.

End LoginThenGate.


(** ** An upsert, then the read of the same key *)

Lemma head_filter_first {A : Type} (P : A → bool) (before : list A) (d : A)
    (after : list A) :
  (∀ d0, d0 ∈ before → P d0 = false) → P d = true →
  head (List.filter P (before ++ d :: after)) = Some d.
Proof.
  induction before as [|x before IH]; intros Hb Hd; simpl.
  - by rewrite Hd.
  - rewrite (Hb x) by left. apply IH; [|done].
    intros d0 Hd0. apply Hb. by right.
Qed.

Section UpsertThenGet.
Context `{Mongoose}.

Lemma upsert_then_findOne (m : Model) (k v : string) (upd : gmap string JValue)
    (sdi : option bool) (env : Env) (st st' : Store) (d : Doc) :
  plain upd = true → upd !! k = None →
  findOneAndUpdate_upsert m k v upd sdi env st = inr (st', d) →
  findOne m (FEq k (VStr v)) st' = Some d.
Proof.
  intros Hplain Hk Hup.
  destruct (upsert_casts _ _ _ _ _ _ _ _ _ Hup) as (newId & g & Hid & Hg).
  destruct (cast_sets (s_paths (schema m)) upd) as [e|sets] eqn:Hsets.
  { unfold castUpdate in Hg. by rewrite Hsets in Hg. }
  pose proof (cast_sets_absent _ _ _ _ Hsets Hk) as Habs.
  destruct (upsert_inr m k v upd sdi env st st' d newId _ Hid
              (castUpdate_plain _ _ _ Hplain Hsets) Hup)
    as [(before & old & after & Hst & Hold & Hbefore & _ & -> & ->)
       |(Hnone & _ & _ & Hfs & ->)];
    unfold findOne; rewrite set_collection_same.
  - apply head_filter_first.
    + intros d0 Hd0. simpl. apply bool_decide_eq_false. by apply Hbefore.
    + simpl. apply bool_decide_eq_true. by rewrite lookup_union_r.
  - apply head_filter_first.
    + intros d0 Hd0. simpl. apply bool_decide_eq_false. by apply Hnone.
    + simpl. apply bool_decide_eq_true. rewrite Hfs.
      assert ((sets ∪ {[k := VStr v]}) !! k = Some (VStr v)) as Hl.
      { rewrite lookup_union_r by done. by simplify_map_eq. }
      destruct (default _ sdi); [by apply with_defaults_keeps|done].
Qed.

(** X16.  What an upsert answers is what the read of the same key answers
    next.  After an accepted PUT on a keyed section, the GET of the same
    sectionId answers 200 with the very record the PUT answered; and after
    an accepted singleton upsert whose body is made of plain field names
    and does not name the marker field singleton, the singleton read
    answers 200 with the record the upsert answered.  Neither read changes
    the store. *)
Theorem upsert_then_get :
  (∀ env req st,
     status (putSection env req st).2 = 200 →
     ∀ env' req',
       param req' "sectionId" = param req "sectionId" →
       getSection env' req' (putSection env req st).1
       = ((putSection env req st).1, (putSection env req st).2))
  ∧ (∀ m env req st,
       plain (body req) = true → body req !! "singleton" = None →
       status (updateSingleton (createCrudController m) env req st).2 = 200 →
       ∀ env' req',
         getSingleton (createCrudController m) env' req'
           (updateSingleton (createCrudController m) env req st).1
         = ((updateSingleton (createCrudController m) env req st).1,
            (updateSingleton (createCrudController m) env req st).2)).
Proof.
  split.
  - intros env req st H200 env' req' Hp. unfold getSection. rewrite Hp.
    unfold putSection in *. cbv zeta in *.
    destruct (findOneAndUpdate_upsert _ _ _ _ _ _ _) as [e|[st' d]] eqn:Hup;
      [done|].
    cbn [fst snd].
    assert (sectionUpdate req !! "sectionId" = None) as Hk
      by (unfold sectionUpdate; by simplify_map_eq).
    by rewrite (upsert_then_findOne _ _ _ _ _ _ _ _ _
                  (sectionUpdate_plain req) Hk Hup).
  - intros m env req st Hplain Hk H200 env' req'.
    cbn [getSingleton updateSingleton createCrudController] in *.
    destruct (findOneAndUpdate_upsert _ _ _ _ _ _ _) as [e|[st' d]] eqn:Hup;
      [done|].
    cbn [fst snd].
    by rewrite (upsert_then_findOne _ _ _ _ _ _ _ _ _ Hplain Hk Hup).
Qed.

(** X17.  Publishing and unpublishing go through the generic update.  For a
    content resource, an accepted (200) update whose body is made of plain
    field names and gives published a boolean answers the record with that
    flag, and any public list read from the resulting store contains that
    record exactly when the boolean is true. *)
Theorem update_sets_public_visibility (name : string) (m : Model) (env : Env)
    (req : Request) (st : Store) (b : bool) :
  (name, m) ∈ contentResources → plain (body req) = true →
  body req !! "published" = Some (JBool b) →
  let out := update (createCrudController m) env req st in
  status out.2 = 200 →
  ∃ d', json out.2 = RDoc d'
    ∧ fields d' !! "published" = Some (VBool b)
    ∧ ∀ env' req' items,
        json (getPublic (createCrudController m) env' req' out.1).2
          = RDocs items →
        (d' ∈ items ↔ b = true).
Proof.
  intros Hres Hplain Hpub out H200. subst out.
  assert (default_ (VBool false) (path "published" TBoolean)
            ∈ s_paths (schema m)) as Hin.
  { unfold contentResources in Hres.
    repeat (apply elem_of_cons in Hres as [[= -> ->] | Hres]);
      [| | | | by apply elem_of_nil in Hres];
      simpl; repeat (first [by left | right]). }
  cbn [update getPublic createCrudController] in *.
  unfold findByIdAndUpdate in *.
  destruct (castObjectId (param req "id")) as [i|]; [|done].
  destruct (set_of_id (body req)) as [e|newId]; [done|]. cbn [bind_err] in *.
  destruct (cast_sets (s_paths (schema m)) (body req)) as [e|sets] eqn:Hsets.
  { unfold castUpdate in H200. rewrite Hsets in H200. done. }
  rewrite (castUpdate_plain _ _ _ Hplain Hsets) in *. cbn [bind_err] in *.
  destruct (split_first _ (st m)) as [[[before old] after]|] eqn:Hsplit;
    [|done].
  destruct (check_id newId old); [done|]. cbv zeta in *.
  rewrite duplicate_on_update_none in * by (by eapply content_no_unique).
  cbn [fst snd json]. eexists. split; [done|].
  assert (sets !! "published" = Some (VBool b)) as Hset.
  { exact (cast_sets_present _ _ _ _ (JBool b) Hsets
             (schema_names_NoDup m) Hin Hpub ltac:(done)). }
  assert (fields (updated (schema m) (λ fs, sets ∪ fs) env old) !! "published"
          = Some (VBool b)) as Hf.
  { cbn [fields updated]. by apply lookup_union_Some_l. }
  split; [done|].
  intros env' req' items [= <-]. rewrite find_sorted_elem.
  rewrite set_collection_same. split.
  - intros [_ Hm]. unfold matches in Hm. apply bool_decide_eq_true in Hm.
    rewrite Hf in Hm. congruence.
  - intros ->. split; [apply elem_of_app; right; by left|].
    unfold matches. by apply bool_decide_eq_true.
Qed.

End UpsertThenGet.

(** ** The users endpoint *)

Section UsersEndpoint.
Context `{Crypto} `{Mongoose} `{Runtime}.

Lemma gate_refuses (env : Env) (req : Request) :
  ¬ authenticated env (authorization req) true →
  ∃ r, authMiddleware "Administrator" env req = Respond r
       ∧ (r = unauthorized ∨ r = bad_token ∨ r = forbidden).
Proof.
  intros Hno. unfold authMiddleware.
  destruct (bearer (authorization req)) as [[|c t]|] eqn:Hb;
    [eexists; split; [done|by left]| |eexists; split; [done|by left]].
  destruct (jwt_verify _ _ _) as [e|claims] eqn:Hv;
    [eexists; split; [done|right; by left]|].
  destruct (is_str (prop claims "role") "Administrator") eqn:Hrole; simpl;
    [|eexists; split; [done|right; right; done]].
  destruct Hno. exists (String c t), claims. repeat split; try done.
  intros _. unfold is_str in Hrole.
  destruct (prop claims "role") as [| | | |s| |]; try done.
  by apply String.eqb_eq in Hrole as ->.
Qed.

Lemma serve_users (meth : Method) (segs : list string) (env : Env)
    (req : Request) (st : Store) :
  serve meth "users" segs env req st
  = match route userRouter meth segs with
    | Some (r, ps) => run_route r env (with_params req ps) st
    | None => (st, {| status := 404; json := RNoRoute |})
    end.
Proof.
  unfold serve, app.
  change (dispatch (("users", userRouter) :: [("personal-info", personalInfoRouter);
            ("skills", skillsRouter); ("sections", singleSectionRouter)])
            meth "users" segs env req st
          = match route userRouter meth segs with
            | Some (r, ps) => run_route r env (with_params req ps) st
            | None => (st, {| status := 404; json := RNoRoute |})
            end).
  cbn [dispatch]. change (String.eqb "users" "users") with true. cbv iota.
  destruct (route userRouter meth segs) as [[r ps]|]; reflexivity.
Qed.

(** X18.  The users endpoint is closed to everyone but an administrator.
    A request to [/api/users/...] that does not carry a token that verifies
    with the role claim Administrator is, for every method, path and body,
    answered 401 (no token), 400 (token refused), 403 (another role) or the
    framework's 404 (no such route): the store is left as it is and no user
    record is part of the answer. *)
Theorem users_closed_without_administrator (meth : Method)
    (segs : list string) (env : Env) (req : Request) (st : Store) :
  ¬ authenticated env (authorization req) true →
  ∃ r, serve meth "users" segs env req st = (st, r)
       ∧ (r = unauthorized ∨ r = bad_token ∨ r = forbidden
          ∨ r = {| status := 404; json := RNoRoute |}).
Proof.
  intros Hno. rewrite serve_users.
  destruct (route userRouter meth segs) as [[r ps]|] eqn:Hr;
    [|eexists; split; [done|by repeat right]].
  apply route_elem in Hr as [Hin _].
  destruct (gate_refuses env (with_params req ps) Hno) as (resp & Hgate & Hresp).
  exists resp. split; [|naive_solver].
  unfold userRouter in Hin.
  repeat (apply elem_of_cons in Hin as [->|Hin]);
    [| | | |by apply elem_of_nil in Hin];
    unfold run_route; cbn [r_gate r_handler]; unfold gated; by rewrite Hgate.
Qed.

(** X19.  The list of users is not projected.  To a request that carries a
    token that verifies with the role claim Administrator, [GET /api/users]
    answers 200 with every stored user record as it is stored (each as
    often as it is stored), the password hash field included, and leaves
    the store as it is; unlike the answers of the user create and update
    handlers, nothing is removed from the records. *)
Theorem users_list_is_unprojected (env : Env) (req : Request) (st : Store) :
  authenticated env (authorization req) true →
  ∃ items,
    serve GET "users" [] env req st
      = (st, {| status := 200; json := RDocs items |})
    ∧ items ≡ₚ st User
    ∧ ∀ u, u ∈ st User → u ∈ items.
Proof.
  intros (t & claims & Hb & Ht & Hv & Hrole).
  rewrite serve_users.
  change (route userRouter GET [])
    with (Some ({| r_method := GET; r_pattern := [];
                   r_gate := Some (authMiddleware "Administrator");
                   r_handler := getAllAdmin (createCrudController User) |},
                (∅ : gmap string string))).
  unfold run_route. cbn [r_gate r_handler]. unfold gated.
  rewrite (gate_verified "Administrator" env (with_params req ∅) t claims
             Hb Ht Hv).
  rewrite (Hrole eq_refl). cbn [getAllAdmin createCrudController].
  change (String.eqb "Administrator" "Administrator"
          && negb (is_str (JStr "Administrator") "Administrator")) with false.
  cbv iota.
  assert (find_sorted User FAll st ≡ₚ st User) as Hperm.
  { destruct (find_sorted_spec User FAll st) as [Hp _].
    by rewrite Hp, filter_all. }
  eexists. split; [done|]. split; [done|].
  intros u Hu. by rewrite Hperm.
Qed.

End UsersEndpoint.

(** * The sample instance *)

(** ** Its tokens keep the signing contract *)

Module SampleFacts.
Import Sample.

Lemma count_ones_put (n : nat) (r : string) :
  count_ones (put_ones n (String "0" r)) = Some (n, r).
Proof. induction n as [|n IH]; simpl; [done|]. by rewrite IH. Qed.

Lemma take_chars_put (s r : string) :
  take_chars (String.length s) (put_chars s r) = Some (s, r).
Proof. induction s as [|c s IH]; simpl; [done|]. by rewrite IH. Qed.

Lemma dec_put_str (s r : string) : dec_str (put_str s r) = Some (s, r).
Proof.
  unfold dec_str, put_str. rewrite count_ones_put. apply take_chars_put.
Qed.

Lemma dec_put_pos (p : positive) (r : string) :
  dec_pos (put_pos p r) = Some (p, r).
Proof. induction p as [p IH|p IH|]; simpl; [| |done]; by rewrite IH. Qed.

Lemma dec_put_Z (z : Z) (r : string) : dec_Z (put_Z z r) = Some (z, r).
Proof. destruct z; simpl; [done| |]; by rewrite dec_put_pos. Qed.

Lemma jwt_contract_sample : @jwt_contract crypto.
Proof.
  intros id name role key ttl t t' Ht. simpl. unfold verify, sign.
  rewrite !dec_put_str, !dec_put_Z. rewrite String.eqb_refl. simpl.
  destruct (t + ttl <=? t') eqn:Hexp; [apply Z.leb_le in Hexp; lia|].
  unfold prop. by simplify_map_eq.
Qed.

End SampleFacts.

(** ** The theorems at concrete requests *)

Import Sample Fixture.
#[local] Existing Instances Sample.crypto Sample.mongoose Sample.runtime.

(** Alice logs in with her password and gets a token that decodes to her id
    and role; a wrong password and the inactive Bob get 401. *)
Lemma login_active_only_witness :
  status (login env0 (loginRequest "a@b.com" "x") users).2 = 200
  ∧ (∃ claims,
       jwt_verify (jwt_sign (loginPayload alice) (secret env0) 28800 100)
                  (secret env0) 5000 = inr claims
       ∧ prop claims "id" = JStr aliceId
       ∧ prop claims "role" = JStr "Administrator")
  ∧ login env0 (loginRequest "a@b.com" "no") users = (users, invalid_credentials)
  ∧ login env0 (loginRequest "bob@b.com" "y") users = (users, invalid_or_inactive).
Proof.
  assert (Ha : ∀ pw, castQuery emailPath
                       (prop (body (loginRequest "a@b.com" pw)) "email")
                     = Some (selects "a@b.com")) by (intros pw; reflexivity).
  assert (Hfa : findOne User (FRaw "email" (selects "a@b.com")) users = Some alice)
    by (vm_compute; reflexivity).
  assert (Hactive : fields alice !! "status" = Some (VStr "Active"))
    by (vm_compute; reflexivity).
  pose proof (@login_active_only crypto mongoose env0 (loginRequest "a@b.com" "x") users
                (selects "a@b.com") alice (Ha "x") Hfa) as Hx.
  pose proof (@login_active_only crypto mongoose env0 (loginRequest "a@b.com" "no") users
                (selects "a@b.com") alice (Ha "no") Hfa) as Hno.
  assert (Hb : castQuery emailPath
                 (prop (body (loginRequest "bob@b.com" "y")) "email")
               = Some (selects "bob@b.com")) by reflexivity.
  assert (Hfb : findOne User (FRaw "email" (selects "bob@b.com")) users = Some bob)
    by (vm_compute; reflexivity).
  pose proof (@login_active_only crypto mongoose env0 (loginRequest "bob@b.com" "y") users
                (selects "bob@b.com") bob Hb Hfb) as Hy.
  cbv zeta in Hx, Hno, Hy.
  destruct Hx as (Hx & _). destruct Hno as (_ & _ & Hno & _).
  destruct Hy as (_ & Hy & _).
  destruct (Hx ltac:(vm_compute; reflexivity)) as (Hok & _ & Hdecode).
  split; [by apply Hok|]. split.
  - apply (Hdecode Hactive SampleFacts.jwt_contract_sample "Alice" "Administrator");
      [vm_compute; reflexivity | vm_compute; reflexivity | simpl; lia].
  - split.
    + apply Hno; [exact Hactive | vm_compute; reflexivity].
    + apply Hy. vm_compute. intros [=].
Defined.

(** A new password for Alice is stored as its hash; the answer carries no
    hash. *)
Lemma updateUser_password_witness :
  let out := updateUser env1 (bound "id" aliceId {[ "password" := JStr "new" ]}) users in
  status out.2 = 200
  ∧ stored_hash out.1 aliceId = Some (VStr (put_str "t" "new"))
  ∧ (∀ u, json out.2 = RDoc u → fields u !! "passwordHash" = None).
Proof.
  pose proof (@updateUser_password crypto mongoose runtime env1
                (bound "id" aliceId {[ "password" := JStr "new" ]}) users
                aliceId [] alice [bob]
                ltac:(vm_compute; reflexivity) ltac:(reflexivity)
                ltac:(reflexivity)
                ltac:(by intros d0 ?%elem_of_nil)) as Hw.
  cbv zeta in Hw. destruct Hw as (_ & Hnew & Hnohash & _).
  destruct (Hnew "new" (put_str "t" "new") ltac:(vm_compute; reflexivity)
              ltac:(done) ltac:(vm_compute; reflexivity)) as (Hstored & _).
  intros out. assert (status out.2 = 200) as Hok by (vm_compute; reflexivity).
  split; [exact Hok|]. split; [by apply Hstored | exact Hnohash].
Defined.

(** Changing Alice's email to Bob's together with her password is refused
    (the email index is unique), so the stored hash is still the old one:
    the new password does not verify against it. *)
Lemma updateUser_password_counterexample :
  let req := bound "id" aliceId
               {[ "email" := JStr "bob@b.com"; "password" := JStr "new" ]} in
  let out := updateUser env1 req users in
  prop (body req) "password" = JStr "new"
  ∧ status out.2 = 400
  ∧ stored_hash out.1 aliceId = stored_hash users aliceId
  ∧ bcrypt_compare (JStr "new") (toJ (stored_hash out.1 aliceId)) = Some false.
Proof. vm_compute. repeat split; reflexivity. Qed.

(** Nothing is stored yet: personal-info, skills and an unknown section key
    all read as the empty object. *)
Lemma get_missing_is_empty_witness :
  serve GET "personal-info" [] env0 (request None ∅) empty = (empty, ok_empty)
  ∧ serve GET "skills" [] env0 (request None ∅) empty = (empty, ok_empty)
  ∧ serve GET "sections" ["unknown-key"] env0 (request None ∅) empty
    = (empty, ok_empty).
Proof.
  destruct (@get_missing_is_empty crypto mongoose runtime env0 (request None ∅) empty)
    as (_ & _ & Hsec & Hinfo & Hskills).
  split; [|split].
  - apply Hinfo. by intros d ?%elem_of_nil.
  - apply Hskills. by intros d ?%elem_of_nil.
  - apply Hsec; [done|]. by intros d ?%elem_of_nil.
Defined.





(** Projects: no token on POST is 401, an editor's token on DELETE is 403,
    and the same token reaches the create handler. *)
Lemma crud_route_gates_witness :
  serve POST "projects" [] env0 (request None ∅) empty = (empty, unauthorized)
  ∧ serve DELETE "projects" [draftId] env0 (authorized editorToken ∅) projects
    = (projects, forbidden)
  ∧ serve GET "projects" ["all"] env0 (authorized editorToken ∅) projects
    = (projects, {| status := 200; json := RDocs [draft] |}).
Proof.
  split; [|split].
  - destruct (@crud_route_gates crypto mongoose runtime "projects" Project env0 (request None ∅) empty
                draftId ltac:(by left) ltac:(done))
      as (_ & _ & _ & _ & _ & Hpost & _).
    apply Hpost. by left.
  - destruct (@crud_route_gates crypto mongoose runtime "projects" Project env0
                (authorized editorToken ∅) projects
                draftId ltac:(by left) ltac:(done))
      as (_ & _ & _ & _ & _ & _ & Htoken).
    destruct (Htoken editorToken editorClaims ltac:(vm_compute; reflexivity)
                ltac:(done) ltac:(vm_compute; reflexivity)) as (Hdel & _).
    apply Hdel. vm_compute. intros [=].
  - destruct (@crud_route_gates crypto mongoose runtime "projects" Project env0
                (authorized editorToken ∅) projects
                draftId ltac:(by left) ltac:(done))
      as (_ & _ & _ & _ & _ & _ & Htoken).
    destruct (Htoken editorToken editorClaims ltac:(vm_compute; reflexivity)
                ltac:(done) ltac:(vm_compute; reflexivity))
      as (_ & _ & Hall & _).
    rewrite Hall. vm_compute. reflexivity.
Defined.

(** A PUT on a new section key with a stray field and a sectionId in the
    body stores the key of the path, the title of the body and nothing
    else. *)
Lemma putSection_witness :
  let req := bound "sectionId" "resume"
               {[ "title" := JStr "My Resume"; "sectionId" := JStr "other";
                  "extra" := JStr "ignored" ]} in
  putSection env0 req empty
    = putSection env0 (bound "sectionId" "resume" {[ "title" := JStr "My Resume" ]})
        empty
  ∧ ∃ st' d, putSection env0 req empty
               = (st', {| status := 200; json := RDoc d |})
             ∧ fields d !! "sectionId" = Some (VStr "resume")
             ∧ fields d !! "title" = Some (VStr "My Resume")
             ∧ fields d !! "extra" = None.
Proof.
  intros req.
  destruct (@putSection_persists_title_description mongoose env0 req empty)
    as (Hsame & _ & _ & Hstored).
  split.
  - symmetry. apply Hsame; vm_compute; reflexivity.
  - destruct (putSection env0 req empty) as [st' resp] eqn:Hput.
    assert (∃ d, resp = {| status := 200; json := RDoc d |}) as [d ->].
    { vm_compute in Hput. inversion Hput; subst. by eexists. }
    exists st', d. split; [done|].
    destruct (Hstored st' d eq_refl) as (Hkey & Hstring & _ & Hcases).
    split; [exact Hkey|]. split.
    { apply Hstring; [by left|vm_compute; reflexivity]. }
    destruct Hcases as [Hold|(_ & _ & _ & _ & Hnew)].
    + destruct Hold as (before & old & after & Hst & _). by destruct before.
    + by apply Hnew.
Defined.

(** A project created without a published field is stored unpublished and
    is not in the public list. *)
Lemma create_defaults_unpublished_witness :
  let req := request None {[ "title" := JStr "T"; "description" := JStr "D" ]} in
  let out := create (createCrudController Project) env0 req empty in
  status out.2 = 201
  ∧ (∃ d, json out.2 = RDoc d ∧ fields d !! "published" = Some (VBool false))
  ∧ getPublic (createCrudController Project) env1 (request None ∅) out.1
    = (out.1, {| status := 200; json := RDocs [] |}).
Proof.
  intros req out.
  assert (status out.2 = 201) as Hok by (vm_compute; reflexivity).
  destruct (@create_defaults_unpublished mongoose "projects" Project env0 req empty
              out.1 out.2 ltac:(by left) ltac:(vm_compute; reflexivity)
              ltac:(vm_compute; reflexivity) Hok)
    as (d & Hd & _ & Hpub & _).
  split; [exact Hok|]. split; [by exists d|]. vm_compute. reflexivity.
Defined.


(** ** The further properties on the sample instance *)

Lemma adminToken_verifies :
  bearer (Some ("Bearer " +:+ adminToken)) = Some adminToken
  ∧ adminToken ≠ ""
  ∧ verify adminToken (secret env1) (now env1) = inr adminClaims.
Proof. split; [|split]; [vm_compute; reflexivity|by vm_compute|vm_compute; reflexivity]. Qed.

Lemma admin_authenticated :
  authenticated env1 (Some ("Bearer " +:+ adminToken)) true.
Proof.
  destruct adminToken_verifies as (Hb & Hne & Hv).
  exists adminToken, adminClaims. repeat split; try done.
Qed.

Lemma users_consistent : consistent users.
Proof.
  intros m. split.
  - destruct m; apply (bool_decide_unpack _); vm_compute; exact I.
  - destruct m; repeat apply Forall_cons_2; try apply Forall_nil_2;
      intros _; apply (bool_decide_unpack _); vm_compute; exact I.
Qed.

(** A POST without Authorization header stores no project. *)
Lemma unauthenticated_requests_write_nothing_witness :
  (serve POST "projects" [] env0 (request None projectBody) empty).1 = empty.
Proof.
  apply (@unauthenticated_requests_write_nothing crypto mongoose runtime).
  intros t claims Hb. discriminate Hb.
Defined.

(** Deleting the draft takes an administrator's token. *)
Lemma removals_and_user_writes_need_administrator_witness :
  (length ((serve DELETE "projects" [draftId] env1
              (authorized adminToken ∅) projects).1 Project)
   < length (projects Project))%nat
  ∧ authenticated env1 (authorization (authorized adminToken ∅)) true.
Proof.
  assert (length ((serve DELETE "projects" [draftId] env1
                     (authorized adminToken ∅) projects).1 Project)
          < length (projects Project))%nat as Hless
    by (vm_compute; constructor).
  split; [exact Hless|].
  apply (@removals_and_user_writes_need_administrator crypto mongoose runtime
           DELETE "projects" [draftId] env1 (authorized adminToken ∅) projects).
  right. exists Project. exact Hless.
Defined.

(** An editor's accepted create on projects, under whatever case the
    endpoint is written in, leaves the users alone. *)
Lemma requests_write_their_own_collection_witness :
  (serve POST "projects" [] env0 (authorized editorToken projectBody) users).1 User
  = users User
  ∧ (serve POST "Projects" [] env0 (authorized editorToken projectBody) users).1 User
    = users User
  ∧ length ((serve POST "Projects" [] env0 (authorized editorToken projectBody)
               users).1 Project) = 1%nat.
Proof.
  split; [|split].
  - apply (@requests_write_their_own_collection crypto mongoose runtime).
    vm_compute. intros [=].
  - apply (@requests_write_their_own_collection crypto mongoose runtime).
    vm_compute. intros [=].
  - vm_compute. reflexivity.
Defined.

(** A PUT on a section key adds one section and removes none. *)
Lemma requests_change_one_document_witness :
  let st' := (serve PUT "sections" ["about"] env0
                (authorized editorToken projectBody) empty).1 in
  (length (st' SingleSection) ≤ S (length (empty SingleSection)))%nat
  ∧ (length (empty SingleSection) ≤ length (st' SingleSection))%nat.
Proof.
  destruct (@requests_change_one_document crypto mongoose runtime
              PUT "sections" ["about"] env0
              (authorized editorToken projectBody) empty SingleSection)
    as (_ & Hup & Hdown).
  split; [exact Hup|]. apply Hdown. right. right. by left.
Defined.

(** The unique indexes of the two sample users survive the creation of a
    third user by an administrator. *)
Lemma requests_keep_unique_indexes_witness :
  consistent users
  ∧ consistent (serve POST "users" [] env1 (authorized adminToken carolBody)
                  users).1.
Proof.
  split; [exact users_consistent|].
  apply (@requests_keep_unique_indexes crypto mongoose runtime).
  exact users_consistent.
Defined.

(** The public list of projects leaves the store as it is. *)
Lemma reads_write_nothing_witness :
  (serve GET "projects" [] env0 (request None ∅) projects).1 = projects.
Proof.
  apply (@reads_write_nothing crypto mongoose runtime). by left.
Defined.

(** A project created from a title and a description gets the generated
    identifier, the clock as creation time, no technologies yet and the
    unpublished flag. *)
Lemma create_stores_valid_documents_witness :
  let out := create (createCrudController Project) env0
               (request None projectBody) empty in
  status out.2 = 201
  ∧ ∃ d, json out.2 = RDoc d ∧ out.1 Project = [d]
       ∧ _id d = oid env0 ∧ createdAt d = Some (now env0)
       ∧ fields d !! "title" = Some (VStr "T")
       ∧ fields d !! "tech" = Some (VStrs [])
       ∧ fields d !! "published" = Some (VBool false).
Proof.
  split; [vm_compute; reflexivity|].
  destruct (@create_stores_valid_documents mongoose Project env0
              (request None projectBody) empty)
    as [(H400 & _)|(_ & d & Hjson & Hst & _ & Hid & _ & Hstamp & Hfields)].
  { vm_compute in H400. discriminate H400. }
  destruct (Hfields ltac:(vm_compute; reflexivity))
    as (_ & Hnamed & Hdefault & _).
  exists d. split; [exact Hjson|].
  split; [rewrite Hst; apply set_collection_same|].
  split; [apply Hid; vm_compute; reflexivity|].
  split; [apply Hstamp; vm_compute; reflexivity|].
  split; [|split].
  - apply (Hnamed (trim (required (path "title" TString))) (JStr "T"));
      [by left|vm_compute; reflexivity|done].
  - apply (Hdefault (array "tech")); [|vm_compute; reflexivity].
    simpl. repeat (first [by left | right]).
  - apply (Hdefault (default_ (VBool false) (path "published" TBoolean)));
      [|vm_compute; reflexivity].
    simpl. repeat (first [by left | right]).
Defined.

(** A project without a title is refused. *)
Lemma create_rejects_missing_required_witness :
  let out := create (createCrudController Project) env0
               (request None {[ "description" := JStr "D" ]}) empty in
  status out.2 = 400 ∧ out.1 = empty.
Proof.
  apply (@create_rejects_missing_required mongoose Project env0
           (request None {[ "description" := JStr "D" ]}) empty
           (trim (required (path "title" TString)))).
  - by left.
  - reflexivity.
  - left. split; [vm_compute|]; reflexivity.
Defined.

(** Deleting the draft removes it; the second delete is answered 404. *)
Lemma delete_by_id_witness :
  let out := delete_ (createCrudController Project) env0
               (bound "id" draftId ∅) projects in
  out = (set_collection Project [] projects,
         {| status := 200; json := RMessage "Item deleted successfully" |})
  ∧ delete_ (createCrudController Project) env1 (bound "id" draftId ∅) out.1
    = (out.1, item_not_found).
Proof.
  destruct (@delete_by_id mongoose Project env0 (bound "id" draftId ∅) projects)
    as [_ Hcast].
  destruct (Hcast draftId ltac:(vm_compute; reflexivity)) as [_ Hfound].
  destruct (Hfound [] draft [] eq_refl eq_refl
              ltac:(intros d0 Hd0; by apply elem_of_nil in Hd0))
    as [Hout Hnodup].
  split; [exact Hout|].
  destruct Hnodup as [_ Hagain];
    [apply (bool_decide_unpack _); vm_compute; exact I|].
  by apply Hagain.
Defined.

(** A user without any field is refused, and so is a second alice. *)
Lemma createUser_outcomes_witness :
  createUser env0 (request None ∅) users
    = (users, {| status := 400; json := RMessage "All fields are required" |})
  ∧ createUser env0
      (request None (<[ "email" := JStr "a@b.com" ]> carolBody)) users
    = (users, {| status := 400; json := RMessage "Email already exists" |}).
Proof.
  split.
  - destruct (@createUser_outcomes crypto mongoose env0 (request None ∅) users)
      as [Hmissing _].
    apply Hmissing. by left.
  - destruct (@createUser_outcomes crypto mongoose env0
                (request None (<[ "email" := JStr "a@b.com" ]> carolBody)) users)
      as (_ & Hexists & _).
    apply (Hexists eq_refl eq_refl eq_refl eq_refl eq_refl
             (selects "a@b.com") alice);
      vm_compute; reflexivity.
Defined.

(** Renaming alice keeps her identifier, her email and her role. *)
Lemma updateUser_fields_witness :
  ∃ d',
    updateUser env1 (bound "id" aliceId {[ "name" := JStr "Alicia" ]}) users
    = (set_collection User ([] ++ d' :: [bob]) users,
       {| status := 200; json := RDoc (select_without "passwordHash" d') |})
    ∧ _id d' = aliceId
    ∧ fields d' !! "name" = Some (VStr "Alicia")
    ∧ fields d' !! "email" = Some (VStr "a@b.com")
    ∧ fields d' !! "createdBy" = None.
Proof.
  destruct (@updateUser_fields crypto mongoose runtime env1
              (bound "id" aliceId {[ "name" := JStr "Alicia" ]}) users aliceId
              ltac:(vm_compute; reflexivity))
    as [Hfound _].
  destruct (Hfound [] alice [bob] eq_refl eq_refl
              ltac:(intros d0 Hd0; by apply elem_of_nil in Hd0)
              ltac:(vm_compute; reflexivity))
    as (d' & Hout & Hid & Hfour & Hrest).
  exists d'. split; [exact Hout|]. split; [exact Hid|].
  pose proof (Hfour (trim (required (path "name" TString)))
                ltac:(by left) ltac:(by left)) as Hname.
  pose proof (Hfour emailPath ltac:(right; by left) ltac:(right; by left))
    as Hemail.
  split; [etransitivity; [exact Hname|vm_compute; reflexivity]|].
  split; [etransitivity; [exact Hemail|vm_compute; reflexivity]|].
  etransitivity; [apply (Hrest "createdBy")|vm_compute; reflexivity].
  intros Hin. repeat (apply elem_of_cons in Hin as [[=]|Hin]).
  by apply elem_of_nil in Hin.
Defined.

(** The login of alice is the login of an active stored user. *)
Lemma login_sound_witness :
  ∃ u, u ∈ users User
       ∧ fields u !! "status" = Some (VStr "Active")
       ∧ json (login env0 (loginRequest "a@b.com" "x") users).2
         = RLogin (sign (loginPayload u) (secret env0) 28800 (now env0))
                  (fields u !! "name") (fields u !! "role").
Proof.
  destruct (@login_sound crypto mongoose env0 (loginRequest "a@b.com" "x") users)
    as [Hok _].
  destruct Hok as (sel & u & _ & Hu & _ & Hactive & _ & Hjson);
    [vm_compute; reflexivity|].
  exists u. split; [exact Hu|]. split; [exact Hactive|exact Hjson].
Defined.

(** Any scheme word serves: the token follows the first space. *)
Lemma gate_ignores_scheme_witness :
  bearer (Some ("Token" +:+ String Ascii.Space "abc")) = Some "abc".
Proof.
  destruct (@gate_ignores_scheme crypto "Token" "abc" eq_refl)
    as (_ & Hword & _).
  exact (Hword eq_refl).
Defined.

(** The token of alice's login passes the Administrator gate a hundred
    seconds later. *)
Lemma login_token_opens_gate_witness :
  ∃ claims,
    prop claims "role" = JStr "Administrator"
    ∧ authMiddleware "Administrator" env1 (authorized adminToken ∅)
      = Next (set_user (authorized adminToken ∅) claims).
Proof.
  destruct (@login_token_opens_gate crypto mongoose env0
              (loginRequest "a@b.com" "x") users adminToken "Alice"
              "Administrator" SampleFacts.jwt_contract_sample
              ltac:(vm_compute; reflexivity)
              ltac:(by vm_compute)
              ltac:(vm_compute; reflexivity)
              "Administrator" env1 (authorized adminToken ∅)
              eq_refl ltac:(simpl; lia) eq_refl)
    as (claims & _ & _ & Hrole & Hgate).
  exists claims. split; [exact Hrole|exact Hgate].
Defined.

(** A section that was put is the section that is read. *)
Lemma upsert_then_get_witness :
  let put := putSection env0 (bound "sectionId" "about" projectBody) empty in
  status put.2 = 200
  ∧ getSection env1 (bound "sectionId" "about" ∅) put.1 = (put.1, put.2).
Proof.
  destruct (@upsert_then_get mongoose) as [Hsection _].
  assert (status (putSection env0 (bound "sectionId" "about" projectBody)
                    empty).2 = 200) as Hok by (vm_compute; reflexivity).
  split; [exact Hok|].
  apply (Hsection env0 (bound "sectionId" "about" projectBody) empty Hok).
  reflexivity.
Defined.

(** Publishing the draft puts it on the public list. *)
Lemma update_sets_public_visibility_witness :
  let out := update (createCrudController Project) env1
               (bound "id" draftId {[ "published" := JBool true ]}) projects in
  ∃ d', json out.2 = RDoc d'
        ∧ fields d' !! "published" = Some (VBool true)
        ∧ d' ∈ find_sorted Project (FEq "published" (VBool true)) out.1.
Proof.
  destruct (@update_sets_public_visibility mongoose "projects" Project env1
              (bound "id" draftId {[ "published" := JBool true ]}) projects true
              ltac:(by left) ltac:(vm_compute; reflexivity)
              ltac:(vm_compute; reflexivity) ltac:(vm_compute; reflexivity))
    as (d' & Hjson & Hflag & Hlisted).
  exists d'. split; [exact Hjson|]. split; [exact Hflag|].
  by apply (Hlisted env1 (request None ∅) _ eq_refl).
Defined.

(** Without a token the list of users is refused. *)
Lemma users_closed_without_administrator_witness :
  ∃ r, serve GET "users" [] env0 (request None ∅) users = (users, r)
       ∧ (r = unauthorized ∨ r = bad_token ∨ r = forbidden
          ∨ r = {| status := 404; json := RNoRoute |}).
Proof.
  apply (@users_closed_without_administrator crypto mongoose runtime).
  intros (t & claims & Hb & _). discriminate Hb.
Defined.

(** With alice's token the list of users holds both users as stored. *)
Lemma users_list_is_unprojected_witness :
  ∃ items,
    serve GET "users" [] env1 (authorized adminToken ∅) users
      = (users, {| status := 200; json := RDocs items |})
    ∧ alice ∈ items ∧ bob ∈ items.
Proof.
  destruct (@users_list_is_unprojected crypto mongoose runtime env1
              (authorized adminToken ∅) users admin_authenticated)
    as (items & Hserve & _ & Hall).
  exists items. split; [exact Hserve|].
  split; apply Hall; [by left|right; by left].
Defined.
